(** * pb: Helm glue (pkg/helm/helm.go) and the REST client (pkg/http/http.go)

    A shallow embedding of the two Go packages.  The code is orchestration
    over external libraries (os, flock, yaml, helm's repo and action
    packages, net/http, net/url); the libraries' pure functions are taken
    as a record of parameters, the outcome of every call that touches the
    outside world (file system, lock, network, cluster) comes from an
    environment record, and every such call is logged as an event so that
    ordering and "was it called at all" can be stated. *)

From Stdlib Require Import ZArith Lia Ascii.
From Stdlib Require Import Strings.Byte.
From stdpp Require Import base option list strings gmap.

Local Open Scope Z_scope.

(** ** Go errors *)

(** The errno values the os package distinguishes in this code. *)
Inductive Errno := ENOENT | EEXIST | ENOTEMPTY | EACCES | EISDIR | EIO | ENOSPC.

(** A Go [error] value, by dynamic type:
    - [PathError]: *fs.PathError, what os.MkdirAll / os.ReadFile return;
    - [YAMLError]: an error of gopkg.in/yaml.v3;
    - [LibError]: an error of another library (flock, context, helm, net);
    - [WithMessage]: pkg/errors' Wrapf (withStack around withMessage);
    - [WrapError]: fmt.Errorf with a trailing %w verb. *)
Inductive error :=
| PathError (op path : string) (errno : Errno)
| YAMLError (msg : string)
| LibError (msg : string)
| WithMessage (cause : error) (msg : string)
| WrapError (msg : string) (cause : error).

Definition Errno_Error (e : Errno) : string :=
  match e with
  | ENOENT => "no such file or directory"
  | EEXIST => "file exists"
  | ENOTEMPTY => "directory not empty"
  | EACCES => "permission denied"
  | EISDIR => "is a directory"
  | EIO => "input/output error"
  | ENOSPC => "no space left on device"
  end.

(** err.Error() *)
Fixpoint Error (e : error) : string :=
  match e with
  | PathError op path errno => op +:+ " " +:+ path +:+ ": " +:+ Errno_Error errno
  | YAMLError msg => "yaml: " +:+ msg
  | LibError msg => msg
  | WithMessage cause msg => msg +:+ ": " +:+ Error cause
  | WrapError msg cause => msg +:+ Error cause
  end.

(** pkg/errors: Cause follows the chain of [WithMessage] wrappers. *)
Fixpoint Cause (e : error) : error :=
  match e with
  | WithMessage cause _ => Cause cause
  | _ => e
  end.

(** os.IsExist and os.IsNotExist look at the errno under a PathError and
    do not unwrap anything else. *)
Definition os_IsExist (e : error) : bool :=
  match e with
  | PathError _ _ EEXIST | PathError _ _ ENOTEMPTY => true
  | _ => false
  end.

Definition os_IsNotExist (e : error) : bool :=
  match e with
  | PathError _ _ ENOENT => true
  | _ => false
  end.

(** [err != nil && !ignored(err)]: the error to return, if any. *)
Definition fatal (err : option error) (ignored : error -> bool) : option error :=
  match err with
  | Some e => if ignored e then None else Some e
  | None => None
  end.

(** ** Path helpers (path/filepath, strings) *)

Definition isPathSeparator (c : ascii) : bool := Ascii.eqb c "/"%char.

Fixpoint hasSeparator (s : string) : bool :=
  match s with
  | EmptyString => false
  | String c rest => isPathSeparator c || hasSeparator rest
  end.

(** filepath.Ext: the suffix starting at the last dot of the last path
    element, empty when that element has no dot. *)
Fixpoint filepath_Ext (path : string) : string :=
  match path with
  | EmptyString => EmptyString
  | String c rest =>
      match filepath_Ext rest with
      | String _ _ as e => e
      | EmptyString =>
          if hasSeparator rest then EmptyString
          else if Ascii.eqb c "."%char then path
          else EmptyString
      end
  end.

Fixpoint dropString (n : nat) (s : string) : string :=
  match n, s with
  | O, _ => s
  | S n', String _ rest => dropString n' rest
  | S _, EmptyString => EmptyString
  end.

(** strings.Replace(s, old, new, 1): the first occurrence of [old] is
    replaced; an empty [old] matches at the start. *)
Fixpoint strings_Replace1 (s old new : string) : string :=
  if String.prefix old s then new +:+ dropString (String.length old) s
  else match s with
       | EmptyString => EmptyString
       | String c rest => String c (strings_Replace1 rest old new)
       end.

(** ** helm.sh/helm/v3/pkg/repo: the repositories file *)

(** repo.Entry, with the fields this code sets. *)
Record Entry := { Name : string; URL : string }.

(** repo.File; [var f repo.File] is [File_zero]. *)
Record File := { APIVersion : string; Repositories : list Entry }.

Definition File_zero : File := {| APIVersion := ""; Repositories := [] |}.

(** File.Get: the first entry with that name (the slice holds pointers,
    taken to be non-nil). *)
Fixpoint Entries_Get (l : list Entry) (name : string) : option Entry :=
  match l with
  | [] => None
  | e :: rest => if String.eqb (Name e) name then Some e else Entries_Get rest name
  end.

Definition File_Get (f : File) (name : string) : option Entry :=
  Entries_Get (Repositories f) name.

(** File.Has *)
Definition File_Has (f : File) (name : string) : bool :=
  match File_Get f name with Some _ => true | None => false end.

(** File.update: replace the first entry of the same name, or append. *)
Fixpoint Entries_update (l : list Entry) (e : Entry) : list Entry :=
  match l with
  | [] => [e]
  | r :: rest =>
      if String.eqb (Name r) (Name e) then e :: rest
      else r :: Entries_update rest e
  end.

Definition File_Update (f : File) (e : Entry) : File :=
  {| APIVersion := APIVersion f; Repositories := Entries_update (Repositories f) e |}.

(** ** time.Duration (nanoseconds) *)

Definition time_Second : Z := 1000000000.
Definition time_Minute : Z := 60 * time_Second.

(** ** helm.sh/helm/v3/pkg/action: the option structs, as far as set here *)

Record Install := {
  i_ReleaseName : string; i_Namespace : string; i_Version : string;
  i_CreateNamespace : bool; i_Wait : bool; i_Timeout : Z; i_WaitForJobs : bool }.

Record UpgradeAction := {
  u_Namespace : string; u_Version : string;
  u_Wait : bool; u_Timeout : Z; u_WaitForJobs : bool }.

Record UninstallAction := { un_Wait : bool; un_Timeout : Z }.

(** action.NewInstall / NewUpgrade / NewUninstall return the zero struct
    around the configuration. *)
Definition NewInstall : Install :=
  {| i_ReleaseName := ""; i_Namespace := ""; i_Version := "";
     i_CreateNamespace := false; i_Wait := false; i_Timeout := 0;
     i_WaitForJobs := false |}.

Definition NewUpgrade : UpgradeAction :=
  {| u_Namespace := ""; u_Version := ""; u_Wait := false; u_Timeout := 0;
     u_WaitForJobs := false |}.

Definition NewUninstall : UninstallAction := {| un_Wait := false; un_Timeout := 0 |}.

(** ** The Helm struct of pkg/helm *)

Record Helm := {
  ReleaseName : string;
  Namespace : string;
  Values : list string;
  RepoName : string;
  ChartName : string;
  RepoURL : string;
  Version : string }.

(** The repo.Entry that repoAdd builds from its argument. *)
Definition entryOf (h : Helm) : Entry := {| Name := RepoName h; URL := RepoURL h |}.

(** ** The outside world *)

(** What os.WriteFile did: wrote everything, or failed leaving [remains] on
    disk (the old content, a truncated file, or nothing). *)
Inductive WriteOutcome :=
| WriteOk
| WriteFailed (e : error) (remains : option (list byte)).

(** A failure of os.ReadFile on a file that exists. *)
Inductive ReadFault := ReadDenied | ReadIsDir | ReadIO.

Definition ReadFault_errno (r : ReadFault) : Errno :=
  match r with ReadDenied => EACCES | ReadIsDir => EISDIR | ReadIO => EIO end.

(** Every external call, with its arguments and its outcome. *)
Inductive Event :=
| EvMkdirAll (dir : string) (err : option error)
| EvTryLock (path : string) (locked : bool) (err : option error)
| EvUnlock (path : string)
| EvCancel
| EvReadFile (path : string) (err : option error)
| EvNewChartRepository (c : Entry) (err : option error)
| EvDownloadIndexFile (c : Entry) (err : option error)
| EvWriteFile (path : string) (f : File) (perm : Z) (err : option error)
| EvInit (namespace : string) (err : option error)
| EvLocateChart (name : string) (err : option error)
| EvLoad (path : string) (err : option error)
| EvMergeValues (vals : list string) (err : option error)
| EvInstallRun (client : Install) (err : option error)
| EvUpgradeRun (client : UpgradeAction) (name : string) (err : option error)
| EvUninstallRun (client : UninstallAction) (name : string) (err : option error).

(** Pure library functions the code calls. *)
Record Lib := {
  filepath_Dir : string -> string;
  (** the %q verb of fmt on a string (strconv.Quote) *)
  strconv_Quote : string -> string;
  (** yaml.Unmarshal into a zero repo.File: the file, or the text of
      yaml's own error after its "yaml: " prefix *)
  yaml_Unmarshal : list byte -> string + File;
  (** yaml.Marshal inside File.WriteFile *)
  yaml_Marshal : File -> list byte }.

(** Outcomes of the calls that leave the process. *)
Record Env := {
  (** settings.RepositoryConfig *)
  env_RepositoryConfig : string;
  env_MkdirAll : option error;
  (** fileLock.TryLockContext: (locked, err) *)
  env_TryLock : bool * option error;
  env_ReadFault : option ReadFault;
  env_NewChartRepository : Entry -> option error;
  env_DownloadIndexFile : Entry -> option error;
  (** os.WriteFile, given what is on disk and the data *)
  env_WriteFile : option (list byte) -> list byte -> WriteOutcome;
  env_Init : string -> option error;
  env_LocateChart : string -> error + string;
  env_Load : string -> option error;
  env_MergeValues : list string -> option error;
  env_InstallRun : Install -> option error;
  env_UpgradeRun : UpgradeAction -> string -> option error;
  env_UninstallRun : UninstallAction -> string -> option error }.

(** ** State and log *)

(** The state is the content of the repositories file ([None]: there is
    no such file); a computation also yields the events it caused. *)
Definition FS : Type := option (list byte).

Definition M (A : Type) : Type := FS -> A * FS * list Event.

Definition ret {A} (a : A) : M A := fun fs => (a, fs, []).

Definition bind {A B} (m : M A) (k : A -> M B) : M B :=
  fun fs =>
    match m fs with
    | (a, fs1, t1) =>
        match k a fs1 with
        | (b, fs2, t2) => (b, fs2, t1 ++ t2)
        end
    end.

#[global] Instance M_ret : MRet M := @ret.
#[global] Instance M_bind : MBind M := fun A B k m => bind m k.

Definition result {A} (r : A * FS * list Event) : A := fst (fst r).
Definition final {A} (r : A * FS * list Event) : FS := snd (fst r).
Definition events {A} (r : A * FS * list Event) : list Event := snd r.

(** ** pkg/helm/helm.go *)

Section helm.
Context (L : Lib) (env : Env).

(** An external call: its outcome, no change of the file, one event. *)
Definition call {A} (a : A) (ev : Event) : M A := fun fs => (a, fs, [ev]).

Definition os_MkdirAll (dir : string) : M (option error) :=
  call (env_MkdirAll env) (EvMkdirAll dir (env_MkdirAll env)).

Definition TryLockContext (path : string) : M (bool * option error) :=
  call (env_TryLock env)
       (EvTryLock path (fst (env_TryLock env)) (snd (env_TryLock env))).

Definition Unlock (path : string) : M unit := call tt (EvUnlock path).

Definition cancel : M unit := call tt EvCancel.

(** os.ReadFile: a missing file gives ENOENT, a file that is there can
    still fail to be read. *)
Definition os_ReadFile (path : string) : M (list byte * option error) :=
  fun fs =>
    let r := match fs with
             | None => ([], Some (PathError "open" path ENOENT))
             | Some b =>
                 match env_ReadFault env with
                 | Some rf => ([], Some (PathError "read" path (ReadFault_errno rf)))
                 | None => (b, None)
                 end
             end in
    (r, fs, [EvReadFile path (snd r)]).

Definition NewChartRepository (c : Entry) : M (option error) :=
  call (env_NewChartRepository env c)
       (EvNewChartRepository c (env_NewChartRepository env c)).

Definition DownloadIndexFile (c : Entry) : M (option error) :=
  call (env_DownloadIndexFile env c)
       (EvDownloadIndexFile c (env_DownloadIndexFile env c)).

(** File.WriteFile: marshal, then os.WriteFile. *)
Definition File_WriteFile (f : File) (path : string) (perm : Z) : M (option error) :=
  fun fs =>
    match env_WriteFile env fs (yaml_Marshal L f) with
    | WriteOk => (None, Some (yaml_Marshal L f), [EvWriteFile path f perm None])
    | WriteFailed e remains => (Some e, remains, [EvWriteFile path f perm (Some e)])
    end.

(** errors.Wrapf(err, format, args...) with the message already formatted. *)
Definition errors_Wrapf (err : error) (msg : string) : error := WithMessage err msg.

Definition msg_update_failed (url : string) : string :=
  "looks like we are unable to update helm repo " +:+ strconv_Quote L url.

Definition msg_not_valid (url : string) : string :=
  "looks like " +:+ strconv_Quote L url
    +:+ " is not a valid chart repository or cannot be reached".

(** repoAdd from "Read the repository file" to its end (lines 169-220). *)
Definition repoAdd_file (h : Helm) (repoFile : string) : M (option error) :=
  '(b, err) ← os_ReadFile repoFile;
  match fatal err os_IsNotExist with
  | Some e => mret (Some e)
  | None =>
      match yaml_Unmarshal L b with
      | inl msg => mret (Some (YAMLError msg))
      | inr f =>
          let c := {| Name := RepoName h; URL := RepoURL h |} in
          if File_Has f (RepoName h) then
            err ← NewChartRepository c;
            match err with
            | Some e => mret (Some e)
            | None =>
                err ← DownloadIndexFile c;
                match err with
                | Some e => mret (Some (errors_Wrapf e (msg_update_failed (RepoURL h))))
                | None => mret None
                end
            end
          else
            err ← NewChartRepository c;
            match err with
            | Some e => mret (Some e)
            | None =>
                err ← DownloadIndexFile c;
                match err with
                | Some e => mret (Some (errors_Wrapf e (msg_not_valid (RepoURL h))))
                | None =>
                    let f := File_Update f c in
                    err ← File_WriteFile f repoFile 420;
                    match err with
                    | Some e => mret (Some e)
                    | None => mret None
                    end
                end
            end
      end
  end.

(** What the repositories file holds for the code: the bytes ReadFile
    yields ([nil] for a missing file), unmarshalled. *)
Definition indexOf (fs : FS) : string + File :=
  yaml_Unmarshal L (match fs with Some b => b | None => [] end).

(** The URL the file stores under a name. *)
Definition storedURL (fs : FS) (name : string) : option string :=
  match indexOf fs with
  | inr f => URL <$> File_Get f name
  | inl _ => None
  end.

Definition lockPath (repoFile : string) : string :=
  strings_Replace1 repoFile (filepath_Ext repoFile) ".lock".

(** repoAdd.  The two deferred calls run when the function returns, the
    one registered last first: Unlock (registered only when the lock was
    taken without error), then cancel. *)
Definition repoAdd (h : Helm) : M (option error) :=
  let repoFile := env_RepositoryConfig env in
  err ← os_MkdirAll (filepath_Dir L repoFile);
  match fatal err os_IsExist with
  | Some e => mret (Some e)
  | None =>
      '(locked, err) ← TryLockContext (lockPath repoFile);
      res ← match err with
            | Some e => mret (Some e)
            | None => repoAdd_file h repoFile
            end;
      (if bool_decide (err = None) && locked
       then Unlock (lockPath repoFile) else mret tt);;
      cancel;;
      mret res
  end.

Definition actionConfig_Init (namespace : string) : M (option error) :=
  call (env_Init env namespace) (EvInit namespace (env_Init env namespace)).

Definition LocateChart (name : string) : M (error + string) :=
  call (env_LocateChart env name)
       (EvLocateChart name
          (match env_LocateChart env name with inl e => Some e | inr _ => None end)).

Definition loader_Load (path : string) : M (option error) :=
  call (env_Load env path) (EvLoad path (env_Load env path)).

Definition MergeValues (vals : list string) : M (option error) :=
  call (env_MergeValues env vals) (EvMergeValues vals (env_MergeValues env vals)).

Definition Install_Run (client : Install) : M (option error) :=
  call (env_InstallRun env client) (EvInstallRun client (env_InstallRun env client)).

Definition Upgrade_Run (client : UpgradeAction) (name : string) : M (option error) :=
  call (env_UpgradeRun env client name)
       (EvUpgradeRun client name (env_UpgradeRun env client name)).

Definition Uninstall_Run (client : UninstallAction) (name : string) : M (option error) :=
  call (env_UninstallRun env client name)
       (EvUninstallRun client name (env_UninstallRun env client name)).

(** Apply: install a chart.  [verbose] only selects the logger. *)
Definition Apply (h : Helm) (verbose : bool) : M (option error) :=
  err ← actionConfig_Init (Namespace h);
  match err with
  | Some e => mret (Some (WrapError "failed to initialize Helm configuration: " e))
  | None =>
      let client := NewInstall in
      repoAdd h;;
      r ← LocateChart (RepoName h +:+ "/" +:+ ChartName h);
      match r with
      | inl e => mret (Some e)
      | inr cp =>
          err ← loader_Load cp;
          match err with
          | Some e => mret (Some e)
          | None =>
              let client :=
                {| i_ReleaseName := ReleaseName h; i_Namespace := Namespace h;
                   i_Version := Version h; i_CreateNamespace := true;
                   i_Wait := true; i_Timeout := 300 * time_Second;
                   i_WaitForJobs := true |} in
              err ← MergeValues (Values h);
              match err with
              | Some e => mret (Some e)
              | None =>
                  err ← Install_Run client;
                  match err with
                  | Some e => mret (Some e)
                  | None => mret None
                  end
              end
          end
      end
  end.

Definition Upgrade (h : Helm) : M (option error) :=
  err ← actionConfig_Init (Namespace h);
  match err with
  | Some e => mret (Some e)
  | None =>
      let client := NewUpgrade in
      repoAdd h;;
      r ← LocateChart (RepoName h +:+ "/" +:+ ChartName h);
      match r with
      | inl e => mret (Some e)
      | inr cp =>
          err ← loader_Load cp;
          match err with
          | Some e => mret (Some e)
          | None =>
              let client :=
                {| u_Namespace := Namespace h; u_Version := Version h;
                   u_Wait := true; u_Timeout := 300 * time_Second;
                   u_WaitForJobs := true |} in
              err ← MergeValues (Values h);
              match err with
              | Some e => mret (Some e)
              | None =>
                  err ← Upgrade_Run client (ReleaseName h);
                  match err with
                  | Some e => mret (Some e)
                  | None => mret None
                  end
              end
          end
      end
  end.

(** DeleteRelease: the uninstall action is run as NewUninstall made it. *)
Definition DeleteRelease (chartName namespace : string) : M (option error) :=
  err ← actionConfig_Init namespace;
  match err with
  | Some e => mret (Some e)
  | None =>
      let client := NewUninstall in
      err ← Uninstall_Run client chartName;
      match err with
      | Some e => mret (Some e)
      | None => mret None
      end
  end.

(** Uninstall; the response is left out, the error is what it returns
    next to it. *)
Definition Uninstall (h : Helm) (verbose : bool) : M (option error) :=
  err ← actionConfig_Init (Namespace h);
  match err with
  | Some e => mret (Some (WrapError "failed to initialize Helm configuration: " e))
  | None =>
      let client := NewUninstall in
      let client := {| un_Wait := true; un_Timeout := 5 * time_Minute |} in
      err ← Uninstall_Run client (ReleaseName h);
      match err with
      | Some e => mret (Some e)
      | None => mret None
      end
  end.

End helm.

(** ** pkg/http/http.go *)

(** Modelled from the spec: config.Profile, declared in pb/pkg/config, which
    is not among the sources.  It "holds a base URL and basic-auth
    credentials"; the three fields are the ones http.go reads. *)
Record Profile := {
  Profile_URL : string;
  Profile_Username : string;
  Profile_Password : string }.

(** net/url and the method check of net/http, as parameters: the parsed
    URL type, url.Parse, the URL methods JoinPath and String, validMethod,
    and the %q verb. *)
Record Net := {
  url_URL : Type;
  url_Parse : string -> error + url_URL;
  URL_JoinPath : url_URL -> list string -> url_URL;
  URL_String : url_URL -> string;
  http_validMethod : string -> bool;
  Net_Quote : string -> string }.

(** url.JoinPath(base, elem...): the result is named and stays the empty
    string when the base does not parse. *)
Definition url_JoinPath (N : Net) (base : string) (elem : list string)
  : string * option error :=
  match url_Parse N base with
  | inl e => ("", Some e)
  | inr u => (URL_String N (URL_JoinPath N u elem), None)
  end.

(** encoding/base64, StdEncoding.EncodeToString. *)
Definition base64_alphabet : string :=
  "ABCDEFGHIJKLMNOPQRSTUVWXYZabcdefghijklmnopqrstuvwxyz0123456789+/".

Definition base64_digit (v : N) : ascii :=
  match String.get (N.to_nat (N.land v 63)) base64_alphabet with
  | Some c => c
  | None => "="%char
  end.

Fixpoint base64_EncodeToString (src : string) : string :=
  match src with
  | String a (String b (String c rest)) =>
      let val := N.lor (N.lor (N.shiftl (N_of_ascii a) 16) (N.shiftl (N_of_ascii b) 8))
                       (N_of_ascii c) in
      String (base64_digit (N.shiftr val 18))
        (String (base64_digit (N.shiftr val 12))
           (String (base64_digit (N.shiftr val 6))
              (String (base64_digit val) (base64_EncodeToString rest))))
  | String a (String b EmptyString) =>
      let val := N.lor (N.shiftl (N_of_ascii a) 16) (N.shiftl (N_of_ascii b) 8) in
      String (base64_digit (N.shiftr val 18))
        (String (base64_digit (N.shiftr val 12))
           (String (base64_digit (N.shiftr val 6)) "="))
  | String a EmptyString =>
      let val := N.shiftl (N_of_ascii a) 16 in
      String (base64_digit (N.shiftr val 18))
        (String (base64_digit (N.shiftr val 12)) "==")
  | EmptyString => EmptyString
  end.

(** net/http: basicAuth *)
Definition basicAuth (username password : string) : string :=
  base64_EncodeToString (username +:+ ":" +:+ password).

(** http.Header.  Both keys used below are in canonical MIME form already,
    so Set and Add store them as given. *)
Definition Header_Set (h : gmap string (list string)) (key value : string)
  : gmap string (list string) :=
  <[key := [value]]> h.

Definition Header_Add (h : gmap string (list string)) (key value : string)
  : gmap string (list string) :=
  <[key := default [] (h !! key) ++ [value]]> h.

(** http.Request, the fields this code touches; the body is the bytes the
    reader would yield, [None] for a nil reader. *)
Record Request (N : Net) := {
  Method : string;
  Request_URL : url_URL N;
  Header : gmap string (list string);
  Body : option (list byte) }.
Arguments Method {N}.
Arguments Request_URL {N}.
Arguments Header {N}.
Arguments Body {N}.

(** http.NewRequest: default the method, check it, parse the URL, start
    with an empty header. *)
Definition http_NewRequest (N : Net) (method url : string) (body : option (list byte))
  : error + Request N :=
  let method := if String.eqb method "" then "GET" else method in
  if negb (http_validMethod N method)
  then inl (LibError ("net/http: invalid method " +:+ Net_Quote N method))
  else match url_Parse N url with
       | inl e => inl e
       | inr u => inr {| Method := method; Request_URL := u; Header := ∅; Body := body |}
       end.

Definition SetBasicAuth {N} (r : Request N) (username password : string) : Request N :=
  {| Method := Method r; Request_URL := Request_URL r;
     Header := Header_Set (Header r) "Authorization" ("Basic " +:+ basicAuth username password);
     Body := Body r |}.

Definition Request_Header_Add {N} (r : Request N) (key value : string) : Request N :=
  {| Method := Method r; Request_URL := Request_URL r;
     Header := Header_Add (Header r) key value; Body := Body r |}.

(** http.Client, the field set here. *)
Record http_Client := { Timeout : Z }.

Record HTTPClient := { Client : http_Client; HTTPClient_Profile : Profile }.

Definition DefaultClient (profile : Profile) : HTTPClient :=
  {| Client := {| Timeout := 60 * time_Second |}; HTTPClient_Profile := profile |}.

Definition baseAPIURL (N : Net) (client : HTTPClient) (path : string) : string :=
  fst (url_JoinPath N (Profile_URL (HTTPClient_Profile client)) ["api/v1/"; path]).

Definition NewRequest (N : Net) (client : HTTPClient) (method path : string)
    (body : option (list byte)) : error + Request N :=
  match http_NewRequest N method (baseAPIURL N client path) body with
  | inl err => inl err
  | inr req =>
      let req := SetBasicAuth req (Profile_Username (HTTPClient_Profile client))
                              (Profile_Password (HTTPClient_Profile client)) in
      let req := Request_Header_Add req "Content-Type" "application/json" in
      inr req
  end.

(** ** An instance of the parameters, to run the code on *)

(** A stand-in for the YAML codec: every string is written as its
    characters, each after a 01 byte, and closed by a 00 byte; a file is
    its version followed by name and URL of each entry. *)
Fixpoint enc_string (s : string) : list byte :=
  match s with
  | EmptyString => [x00]
  | String c rest => x01 :: byte_of_ascii c :: enc_string rest
  end.

Fixpoint dec_strings (b : list byte) : option (list string) :=
  match b with
  | [] => Some []
  | x00 :: rest => cons EmptyString <$> dec_strings rest
  | x01 :: c :: rest =>
      match dec_strings rest with
      | Some (s :: l) => Some (String (ascii_of_byte c) s :: l)
      | _ => None
      end
  | _ => None
  end.

Definition File_strings (f : File) : list string :=
  APIVersion f :: flat_map (fun e => [Name e; URL e]) (Repositories f).

Fixpoint strings_Entries (l : list string) : option (list Entry) :=
  match l with
  | [] => Some []
  | n :: u :: rest => cons {| Name := n; URL := u |} <$> strings_Entries rest
  | _ => None
  end.

Definition toy_Marshal (f : File) : list byte :=
  concat (map enc_string (File_strings f)).

Definition toy_Unmarshal (b : list byte) : string + File :=
  match b with
  | [] => inr File_zero
  | _ =>
      match dec_strings b with
      | Some (v :: l) =>
          match strings_Entries l with
          | Some es => inr {| APIVersion := v; Repositories := es |}
          | None => inl "unmarshal errors"
          end
      | _ => inl "did not find expected node content"
      end
  end.

(** The double quote character. *)
Definition dquote : string := String (ascii_of_nat 34) EmptyString.

(** %q on a string that needs no escape. *)
Definition toy_Quote (s : string) : string := dquote +:+ s +:+ dquote.

(** filepath.Dir on a clean absolute path: what stands before the last
    separator. *)
Fixpoint toy_Dir (path : string) : string :=
  match path with
  | EmptyString => EmptyString
  | String c rest => if hasSeparator rest then String c (toy_Dir rest) else EmptyString
  end.

Definition toy_Lib : Lib :=
  {| filepath_Dir := toy_Dir; strconv_Quote := toy_Quote;
     yaml_Unmarshal := toy_Unmarshal; yaml_Marshal := toy_Marshal |}.

(** An environment from the four outcomes the synchronizer depends on;
    everything else succeeds. *)
Definition toy_Env (lock : bool * option error) (rf : option ReadFault)
    (download : option error) (write : option error) : Env :=
  {| env_RepositoryConfig := "/home/pb/.config/helm/repositories.yaml";
     env_MkdirAll := None;
     env_TryLock := lock;
     env_ReadFault := rf;
     env_NewChartRepository := fun _ => None;
     env_DownloadIndexFile := fun _ => download;
     env_WriteFile := fun old _ =>
       match write with Some e => WriteFailed e old | None => WriteOk end;
     env_Init := fun _ => None;
     env_LocateChart := fun name => inr ("/home/pb/.cache/helm/" +:+ name);
     env_Load := fun _ => None;
     env_MergeValues := fun _ => None;
     env_InstallRun := fun _ => None;
     env_UpgradeRun := fun _ _ => None;
     env_UninstallRun := fun _ _ => None |}.

(** Everything works and the lock is taken. *)
Definition env_ok : Env := toy_Env (true, None) None None None.

Definition no_route : error := LibError "dial tcp: connect: no route to host".

(** The remote index cannot be fetched. *)
Definition env_unreachable : Env := toy_Env (true, None) None (Some no_route) None.

(** The lock attempt gives up without an error. *)
Definition env_unlocked : Env := toy_Env (false, None) None None None.

Definition lock_failed : error := LibError "context deadline exceeded".

(** The lock attempt fails. *)
Definition env_lock_error : Env := toy_Env (false, Some lock_failed) None None None.

(** The file is there and cannot be read. *)
Definition env_unreadable : Env := toy_Env (true, None) (Some ReadDenied) None None.

Definition stable : Helm :=
  {| ReleaseName := "parseable"; Namespace := "parseable"; Values := [];
     RepoName := "stable"; ChartName := "parseable";
     RepoURL := "https://charts.example.com"; Version := "1.0.0" |}.

Definition stable_other : Helm :=
  {| ReleaseName := "parseable"; Namespace := "parseable"; Values := [];
     RepoName := "stable"; ChartName := "parseable";
     RepoURL := "https://other.example.com"; Version := "1.0.0" |}.

Definition stable_file : File :=
  {| APIVersion := EmptyString;
     Repositories := [ {| Name := "stable"; URL := "https://charts.example.com" |} ] |}.

(** net/url stand-in: a URL is its text, a text with a blank does not
    parse, JoinPath puts one slash between the parts it is given. *)
Fixpoint hasBlank (s : string) : bool :=
  match s with
  | EmptyString => false
  | String c rest => Ascii.eqb c " "%char || hasBlank rest
  end.

Fixpoint trimSlash (s : string) : string :=
  match s with
  | EmptyString => EmptyString
  | String c rest =>
      match trimSlash rest with
      | EmptyString => if isPathSeparator c then EmptyString else String c EmptyString
      | t => String c t
      end
  end.

Definition toy_Net : Net :=
  {| url_URL := string;
     url_Parse := fun s =>
       if hasBlank s then inl (LibError "net/url: invalid character in host name")
       else inr s;
     URL_JoinPath := fun u elem =>
       fold_left (fun acc e => trimSlash acc +:+ "/" +:+ e) elem u;
     URL_String := fun u => u;
     http_validMethod := fun m => negb (hasBlank m);
     Net_Quote := toy_Quote |}.

Definition demo : Profile :=
  {| Profile_URL := "https://demo.parseable.com";
     Profile_Username := "Aladdin"; Profile_Password := "open sesame" |}.

Definition broken : Profile :=
  {| Profile_URL := "https://demo parseable";
     Profile_Username := "admin"; Profile_Password := "admin" |}.


(** ** Listing and reading releases (helm.go: ListReleases, ListRelease,
    GetReleaseValues) *)

(** release.Release: its name and its Config, whose values this code only
    hands on. *)
Record Release (C : Type) := { Release_Name : string; Release_Config : C }.
Arguments Release_Name {C}.
Arguments Release_Config {C}.

(** What the cluster answers to the list and get actions. *)
Record ReleaseStore (C : Type) := {
  store_List : error + list (Release C);
  store_Get : string -> error + Release C }.
Arguments store_List {C}.
Arguments store_Get {C}.

Definition ListReleases {C} (env : Env) (S : ReleaseStore C) (namespace : string)
  : error + list (Release C) :=
  match env_Init env namespace with
  | Some err => inl err
  | None => store_List S
  end.

(** The loop of ListRelease over the releases. *)
Fixpoint releases_named {C} (releases : list (Release C)) (releaseName : string) : bool :=
  match releases with
  | [] => false
  | release :: rest =>
      if String.eqb (Release_Name release) releaseName then true
      else releases_named rest releaseName
  end.

(** ListRelease: the pair it returns and the lines it prints. *)
Definition ListRelease {C} (env : Env) (S : ReleaseStore C)
    (releaseName namespace : string) : (bool * option error) * list string :=
  match env_Init env namespace with
  | Some err => ((false, Some err), [])
  | None =>
      match store_List S with
      | inl err => ((false, Some err), [])
      | inr releases =>
          if Nat.eqb (length releases) 0
          then ((false, None), ["No release exist, install app " +:+ releaseName])
          else ((releases_named releases releaseName, None), [])
      end
  end.

Definition GetReleaseValues {C} (env : Env) (S : ReleaseStore C)
    (releaseName namespace : string) : error + C :=
  match env_Init env namespace with
  | Some err => inl err
  | None =>
      match store_Get S releaseName with
      | inl err => inl err
      | inr release => inr (Release_Config release)
      end
  end.

(** ** Reading the log *)

Definition isReadFile (ev : Event) : bool :=
  match ev with EvReadFile _ _ => true | _ => false end.

Definition isNewChartRepository (ev : Event) : bool :=
  match ev with EvNewChartRepository _ _ => true | _ => false end.

Definition isDownloadIndexFile (ev : Event) : bool :=
  match ev with EvDownloadIndexFile _ _ => true | _ => false end.

Definition isWriteFile (ev : Event) : bool :=
  match ev with EvWriteFile _ _ _ _ => true | _ => false end.

Definition isTryLock (ev : Event) : bool :=
  match ev with EvTryLock _ _ _ => true | _ => false end.

(** How many events of a kind a log holds. *)
Definition count (kind : Event -> bool) (log : list Event) : nat :=
  length (List.filter kind log).

(** ** More environments to run the code in *)

Definition with_MkdirAll (r : option error) (env : Env) : Env :=
  {| env_RepositoryConfig := env_RepositoryConfig env;
     env_MkdirAll := r;
     env_TryLock := env_TryLock env;
     env_ReadFault := env_ReadFault env;
     env_NewChartRepository := env_NewChartRepository env;
     env_DownloadIndexFile := env_DownloadIndexFile env;
     env_WriteFile := env_WriteFile env;
     env_Init := env_Init env;
     env_LocateChart := env_LocateChart env;
     env_Load := env_Load env;
     env_MergeValues := env_MergeValues env;
     env_InstallRun := env_InstallRun env;
     env_UpgradeRun := env_UpgradeRun env;
     env_UninstallRun := env_UninstallRun env |}.

Definition with_NewChartRepository (r : option error) (env : Env) : Env :=
  {| env_RepositoryConfig := env_RepositoryConfig env;
     env_MkdirAll := env_MkdirAll env;
     env_TryLock := env_TryLock env;
     env_ReadFault := env_ReadFault env;
     env_NewChartRepository := fun _ => r;
     env_DownloadIndexFile := env_DownloadIndexFile env;
     env_WriteFile := env_WriteFile env;
     env_Init := env_Init env;
     env_LocateChart := env_LocateChart env;
     env_Load := env_Load env;
     env_MergeValues := env_MergeValues env;
     env_InstallRun := env_InstallRun env;
     env_UpgradeRun := env_UpgradeRun env;
     env_UninstallRun := env_UninstallRun env |}.

Definition with_Init (r : option error) (env : Env) : Env :=
  {| env_RepositoryConfig := env_RepositoryConfig env;
     env_MkdirAll := env_MkdirAll env;
     env_TryLock := env_TryLock env;
     env_ReadFault := env_ReadFault env;
     env_NewChartRepository := env_NewChartRepository env;
     env_DownloadIndexFile := env_DownloadIndexFile env;
     env_WriteFile := env_WriteFile env;
     env_Init := fun _ => r;
     env_LocateChart := env_LocateChart env;
     env_Load := env_Load env;
     env_MergeValues := env_MergeValues env;
     env_InstallRun := env_InstallRun env;
     env_UpgradeRun := env_UpgradeRun env;
     env_UninstallRun := env_UninstallRun env |}.

Definition with_LocateChart (r : error + string) (env : Env) : Env :=
  {| env_RepositoryConfig := env_RepositoryConfig env;
     env_MkdirAll := env_MkdirAll env;
     env_TryLock := env_TryLock env;
     env_ReadFault := env_ReadFault env;
     env_NewChartRepository := env_NewChartRepository env;
     env_DownloadIndexFile := env_DownloadIndexFile env;
     env_WriteFile := env_WriteFile env;
     env_Init := env_Init env;
     env_LocateChart := fun _ => r;
     env_Load := env_Load env;
     env_MergeValues := env_MergeValues env;
     env_InstallRun := env_InstallRun env;
     env_UpgradeRun := env_UpgradeRun env;
     env_UninstallRun := env_UninstallRun env |}.

Definition chart_not_found : error :=
  LibError "chart parseable not found in https://charts.example.com".

(** A file that is no index. *)
Definition garbage : list byte := [x02].

Definition mkdir_denied : error :=
  PathError "mkdir" "/home/pb/.config" EACCES.

Definition mkdir_exists : error :=
  PathError "mkdir" "/home/pb/.config/helm" EEXIST.

Definition bad_scheme : error :=
  LibError "could not find protocol handler for: ftp".

Definition disk_full : error :=
  PathError "write" "/home/pb/.config/helm/repositories.yaml" ENOSPC.

Definition no_cluster : error := LibError "Kubernetes cluster unreachable".

(** The write fails and leaves the file as it was. *)
Definition env_disk_full : Env := toy_Env (true, None) None None (Some disk_full).

Definition incubator : Helm :=
  {| ReleaseName := "parseable"; Namespace := "parseable"; Values := [];
     RepoName := "incubator"; ChartName := "parseable";
     RepoURL := "https://incubator.example.com"; Version := "1.0.0" |}.

Definition two_releases : ReleaseStore (list (string * string)) :=
  {| store_List := inr [ {| Release_Name := "ingestor"; Release_Config := [] |};
                         {| Release_Name := "parseable";
                            Release_Config := [("replicas", "3")] |} ];
     store_Get := fun name =>
       if String.eqb name "parseable"
       then inr {| Release_Name := "parseable"; Release_Config := [("replicas", "3")] |}
       else inl (LibError "release: not found") |}.

Definition no_releases : ReleaseStore (list (string * string)) :=
  {| store_List := inr [];
     store_Get := fun _ => inl (LibError "release: not found") |}.

(** * Properties *)

(** ** Strings and the repositories file API *)

Lemma String_length_app (s t : string) :
  String.length (s +:+ t) = (String.length s + String.length t)%nat.
Proof. induction s as [|c s IH]; simpl; [done|]. by rewrite IH. Qed.

Lemma String_app_empty_r (s : string) : s +:+ EmptyString = s.
Proof.
  induction s as [|c s IH]; [done|].
  change (String c (s +:+ EmptyString) = String c s). by rewrite IH.
Qed.

Lemma String_app_assoc (s t u : string) : (s +:+ t) +:+ u = s +:+ t +:+ u.
Proof.
  induction s as [|c s IH]; [done|].
  change (String c ((s +:+ t) +:+ u) = String c (s +:+ t +:+ u)). by rewrite IH.
Qed.

Lemma Entries_Get_update l e : Entries_Get (Entries_update l e) (Name e) = Some e.
Proof.
  induction l as [|r l IH]; simpl.
  - by rewrite String.eqb_refl.
  - destruct (String.eqb (Name r) (Name e)) eqn:E; simpl.
    + by rewrite String.eqb_refl.
    + by rewrite E.
Qed.

Lemma File_Has_Update f e : File_Has (File_Update f e) (Name e) = true.
Proof. unfold File_Has, File_Get, File_Update; simpl. by rewrite Entries_Get_update. Qed.

Lemma Entries_update_absent l e :
  Entries_Get l (Name e) = None -> Entries_update l e = l ++ [e].
Proof.
  induction l as [|r l IH]; simpl; [done|].
  destruct (String.eqb (Name r) (Name e)); [done|].
  intros H. by rewrite IH.
Qed.

(** ** The helpers on concrete inputs *)

Example filepath_Ext_yaml :
  filepath_Ext "/home/pb/.config/helm/repositories.yaml" = ".yaml".
Proof. reflexivity. Qed.

Example filepath_Ext_last_element_only :
  filepath_Ext "/etc/helm.d/repositories" = EmptyString.
Proof. reflexivity. Qed.

Example lockPath_yaml :
  lockPath "/home/pb/.config/helm/repositories.yaml"
  = "/home/pb/.config/helm/repositories.lock".
Proof. reflexivity. Qed.

(** strings.Replace works on the first occurrence from the left. *)
Example lockPath_first_occurrence :
  lockPath "/srv/charts.yaml/repositories.yaml" = "/srv/charts.lock/repositories.yaml".
Proof. reflexivity. Qed.

Example base64_rfc4648 :
  map base64_EncodeToString ["f"; "fo"; "foo"; "foob"; "fooba"; "foobar"]
  = ["Zg=="; "Zm8="; "Zm9v"; "Zm9vYg=="; "Zm9vYmE="; "Zm9vYmFy"].
Proof. reflexivity. Qed.

Example basicAuth_rfc7617 :
  basicAuth "Aladdin" "open sesame" = "QWxhZGRpbjpvcGVuIHNlc2FtZQ==".
Proof. reflexivity. Qed.

(** No file, a reachable remote: the entry is added; asking again with
    another URL succeeds and changes nothing. *)
Example stable_scenario :
  let first := repoAdd toy_Lib env_ok stable None in
  let second := repoAdd toy_Lib env_ok stable_other (final first) in
  result first = None
  /\ indexOf toy_Lib (final first) = inr stable_file
  /\ result second = None
  /\ final second = final first.
Proof. by vm_compute. Qed.

(** ** The stand-in codec reads back what it wrote *)

Lemma dec_strings_enc s b :
  dec_strings (enc_string s ++ b) = cons s <$> dec_strings b.
Proof.
  induction s as [|c s IH]; [done|].
  change (match dec_strings (enc_string s ++ b) with
          | Some (s' :: l) => Some (String (ascii_of_byte (byte_of_ascii c)) s' :: l)
          | _ => None
          end = cons (String c s) <$> dec_strings b).
  rewrite IH, ascii_of_byte_of_ascii. by destruct (dec_strings b).
Qed.

Lemma dec_strings_concat l : dec_strings (concat (map enc_string l)) = Some l.
Proof.
  induction l as [|s l IH]; [done|].
  simpl. by rewrite dec_strings_enc, IH.
Qed.

Lemma strings_Entries_flat es :
  strings_Entries (flat_map (fun e => [Name e; URL e]) es) = Some es.
Proof.
  induction es as [|[n u] es IH]; [done|].
  simpl. by rewrite IH.
Qed.

Lemma toy_roundtrip f : toy_Unmarshal (toy_Marshal f) = inr f.
Proof.
  unfold toy_Unmarshal, toy_Marshal.
  pose proof (dec_strings_concat (File_strings f)) as Hd.
  destruct (concat (map enc_string (File_strings f))) as [|b0 bs] eqn:Hb.
  - by destruct f as [[|c v] es].
  - rewrite Hd. unfold File_strings. rewrite strings_Entries_flat. by destruct f.
Qed.

Lemma ReadFault_errno_ENOENT r : ReadFault_errno r <> ENOENT.
Proof. by destruct r. Qed.

(** The two messages of a failed download never coincide. *)
Lemma msg_update_failed_ne_msg_not_valid L url :
  msg_update_failed L url <> msg_not_valid L url.
Proof.
  unfold msg_update_failed, msg_not_valid. intros H.
  apply (f_equal String.length) in H.
  rewrite !String_length_app in H. simpl in H. lia.
Qed.

(** ** The synchronizer, case by case *)

Ltac go_unfold :=
  unfold repoAdd, repoAdd_file, os_MkdirAll, TryLockContext, Unlock, cancel,
    os_ReadFile, NewChartRepository, DownloadIndexFile, File_WriteFile, call,
    result, final, events, storedURL, indexOf, entryOf, fatal,
    mbind, M_bind, bind, mret, M_ret, ret in *.

(** Split on an innermost scrutinee of the goal. *)
Ltac go_case :=
  match goal with
  | |- context [match ?x with _ => _ end] =>
      lazymatch x with
      | context [match _ with _ => _ end] => fail
      | _ => destruct x eqn:?
      end
  end; simpl; simplify_eq;
  try match goal with
      | H : ReadFault_errno ?r = ENOENT |- _ => by destruct (ReadFault_errno_ENOENT r)
      end.

Ltac go_cases := go_unfold; simpl; repeat go_case.

Ltac go_done :=
  repeat (unfold not; intros; simplify_eq/=;
          try match goal with |- _ /\ _ => split end;
          repeat match goal with
                 | H : _ \/ _ |- _ => destruct H
                 | H : False |- _ => destruct H
                 | H : _ /\ _ |- _ => destruct H
                 end);
  try done; try congruence.

(** Once the name is listed the file is never written. *)
Lemma repoAdd_listed_keeps_file L env h fs f :
  indexOf L fs = inr f ->
  File_Has f (RepoName h) = true ->
  final (repoAdd L env h fs) = fs.
Proof. go_cases; go_done. Qed.

(** C1 (name wins): when the index the file holds lists the name and the
    download of the remote index made by the call succeeds, repoAdd
    returns nil, writes nothing, leaves the file as it was, and the URL
    stored under the name is still the one stored before, whatever URL
    was passed. *)
Theorem repoAdd_name_wins L env h fs f :
  indexOf L fs = inr f ->
  File_Has f (RepoName h) = true ->
  In (EvDownloadIndexFile (entryOf h) None) (events (repoAdd L env h fs)) ->
  result (repoAdd L env h fs) = None
  /\ final (repoAdd L env h fs) = fs
  /\ (forall path f' perm err,
        ~ In (EvWriteFile path f' perm err) (events (repoAdd L env h fs)))
  /\ (exists e, File_Get f (RepoName h) = Some e
        /\ storedURL L fs (RepoName h) = Some (URL e)
        /\ storedURL L (final (repoAdd L env h fs)) (RepoName h) = Some (URL e)).
Proof.
  intros Hf Hhas Hdl.
  assert (Hfin := repoAdd_listed_keeps_file L env h fs f Hf Hhas).
  assert (exists e, File_Get f (RepoName h) = Some e) as [e He].
  { unfold File_Has in Hhas. destruct (File_Get f (RepoName h)); [eauto|done]. }
  assert (storedURL L fs (RepoName h) = Some (URL e)) as Hst.
  { unfold storedURL. by rewrite Hf, He. }
  split; [|split; [done|split]].
  - clear Hfin Hst. revert Hf Hhas Hdl. go_cases; go_done.
  - clear Hfin Hst. revert Hf Hhas Hdl. go_cases; go_done.
  - exists e. by rewrite Hfin.
Qed.


Lemma repoAdd_name_wins_witness :
  result (repoAdd toy_Lib env_ok stable_other (Some (toy_Marshal stable_file))) = None
  /\ final (repoAdd toy_Lib env_ok stable_other (Some (toy_Marshal stable_file)))
     = Some (toy_Marshal stable_file)
  /\ storedURL toy_Lib
       (final (repoAdd toy_Lib env_ok stable_other (Some (toy_Marshal stable_file))))
       "stable" = Some "https://charts.example.com".
Proof.
  destruct (repoAdd_name_wins toy_Lib env_ok stable_other
              (Some (toy_Marshal stable_file)) stable_file
              eq_refl eq_refl ltac:(vm_compute; tauto))
    as (Hres & Hfin & _ & e & He & _ & Hurl).
  split; [exact Hres|split; [exact Hfin|]].
  transitivity (Some (URL e)); [exact Hurl|].
  vm_compute in He. by inversion He.
Defined.

(** C2 (reachability gating): when the index the file holds does not list
    the name and the download made by the call fails, repoAdd returns an
    error, attempts no write and leaves the file as it was. *)
Theorem repoAdd_unreachable_new_name L env h fs f e :
  indexOf L fs = inr f ->
  File_Has f (RepoName h) = false ->
  In (EvDownloadIndexFile (entryOf h) (Some e)) (events (repoAdd L env h fs)) ->
  result (repoAdd L env h fs) = Some (errors_Wrapf e (msg_not_valid L (RepoURL h)))
  /\ final (repoAdd L env h fs) = fs
  /\ (forall path f' perm err,
        ~ In (EvWriteFile path f' perm err) (events (repoAdd L env h fs))).
Proof.
  intros Hf Hhas Hdl. repeat split.
  - revert Hf Hhas Hdl. go_cases; go_done.
  - revert Hf Hhas Hdl. go_cases; go_done.
  - revert Hf Hhas Hdl. go_cases; go_done.
Qed.


Lemma repoAdd_unreachable_new_name_witness :
  result (repoAdd toy_Lib env_unreachable stable None)
    = Some (WithMessage no_route (msg_not_valid toy_Lib "https://charts.example.com"))
  /\ final (repoAdd toy_Lib env_unreachable stable None) = None.
Proof.
  destruct (repoAdd_unreachable_new_name toy_Lib env_unreachable stable None
              File_zero no_route eq_refl eq_refl ltac:(vm_compute; tauto))
    as (Hres & Hfin & _).
  split; [exact Hres|exact Hfin].
Defined.

(** C7: whenever the download made by the call fails with [e], the index
    had been parsed and the error returned is Wrapf of [e] (same root
    cause, text "message: cause") with a message
    that has the %q rendering of the URL in it (hence the URL itself when
    %q only puts it in double quotes), reads "unable to update"
    when the name was listed and "not a valid chart repository or cannot
    be reached" when it was not; the two messages differ, and the error is
    no yaml error, by type and by text. *)
Theorem repoAdd_download_error L env h fs c e :
  In (EvDownloadIndexFile c (Some e)) (events (repoAdd L env h fs)) ->
  exists f msg,
    indexOf L fs = inr f
    /\ msg = (if File_Has f (RepoName h)
              then "looks like we are unable to update helm repo "
                     +:+ strconv_Quote L (RepoURL h)
              else "looks like " +:+ strconv_Quote L (RepoURL h)
                     +:+ " is not a valid chart repository or cannot be reached")
    /\ result (repoAdd L env h fs) = Some (WithMessage e msg)
    /\ Error (WithMessage e msg) = msg +:+ ": " +:+ Error e
    /\ Cause (WithMessage e msg) = Cause e
    /\ (exists pre post, msg = pre +:+ strconv_Quote L (RepoURL h) +:+ post)
    /\ (strconv_Quote L (RepoURL h) = dquote +:+ RepoURL h +:+ dquote ->
        exists pre post, msg = pre +:+ RepoURL h +:+ post)
    /\ msg_update_failed L (RepoURL h) <> msg_not_valid L (RepoURL h)
    /\ (forall m, WithMessage e msg <> YAMLError m
                  /\ Error (WithMessage e msg) <> Error (YAMLError m)).
Proof.
  intros Hdl.
  assert (exists f, indexOf L fs = inr f
            /\ result (repoAdd L env h fs)
               = Some (WithMessage e (if File_Has f (RepoName h)
                                      then msg_update_failed L (RepoURL h)
                                      else msg_not_valid L (RepoURL h))))
    as (f & Hf & Hres).
  { revert Hdl. go_cases; go_done; eexists; (split; [done|]);
      by repeat match goal with H : File_Has _ _ = _ |- _ => rewrite H end. }
  exists f. eexists. split; [done|]. split; [reflexivity|].
  assert (exists pre post,
             (if File_Has f (RepoName h)
              then "looks like we are unable to update helm repo "
                     +:+ strconv_Quote L (RepoURL h)
              else "looks like " +:+ strconv_Quote L (RepoURL h)
                     +:+ " is not a valid chart repository or cannot be reached")
             = pre +:+ strconv_Quote L (RepoURL h) +:+ post) as (pre & post & Hmsg).
  { destruct (File_Has f (RepoName h)).
    + exists "looks like we are unable to update helm repo ", EmptyString.
      by rewrite String_app_empty_r.
    + by exists "looks like ", " is not a valid chart repository or cannot be reached". }
  split; [|split; [done|split; [done|split; [by exists pre, post|split;
    [|split; [apply msg_update_failed_ne_msg_not_valid|]]]]]].
  - rewrite Hres. by destruct (File_Has f (RepoName h)).
  - intros Hq. exists (pre +:+ dquote), (dquote +:+ post).
    by rewrite Hmsg, Hq, !String_app_assoc.
  - intros m. split; [done|]. by destruct (File_Has f (RepoName h)).
Qed.


Lemma repoAdd_download_error_witness :
  exists msg,
    result (repoAdd toy_Lib env_unreachable stable_other (Some (toy_Marshal stable_file)))
      = Some (WithMessage no_route msg)
    /\ msg = "looks like we are unable to update helm repo "
               +:+ toy_Quote "https://other.example.com".
Proof.
  destruct (repoAdd_download_error toy_Lib env_unreachable stable_other
              (Some (toy_Marshal stable_file)) (entryOf stable_other) no_route
              ltac:(vm_compute; tauto))
    as (f & msg & Hf & Hmsg & Hres & _).
  exists msg. split; [exact Hres|].
  vm_compute in Hf. inversion Hf; subst f. exact Hmsg.
Defined.

(** The events of the part of repoAdd that works on the file: no lock is
    touched there. *)
Lemma repoAdd_file_no_Unlock L env h path fs q :
  ~ In (EvUnlock q) (events (repoAdd_file L env h path fs)).
Proof. go_cases; go_done. Qed.

(** C4 (missing file): yaml.Unmarshal of no bytes leaves the zero
    repo.File; with that, (1) when there is no repositories file and
    MkdirAll, the lock attempt, NewChartRepository, the download and the
    write all go through, repoAdd returns nil and the file now holds the
    marshalled index with exactly the one new entry; (2) a ReadFile error
    that is not "does not exist" is returned as it is, before any download
    or write, with the file untouched. *)
Theorem repoAdd_missing_file L env h :
  yaml_Unmarshal L [] = inr File_zero ->
  (fatal (env_MkdirAll env) os_IsExist = None ->
   snd (env_TryLock env) = None ->
   env_NewChartRepository env (entryOf h) = None ->
   env_DownloadIndexFile env (entryOf h) = None ->
   env_WriteFile env None
     (yaml_Marshal L {| APIVersion := EmptyString; Repositories := [entryOf h] |})
     = WriteOk ->
   result (repoAdd L env h None) = None
   /\ final (repoAdd L env h None)
      = Some (yaml_Marshal L {| APIVersion := EmptyString;
                                Repositories := [entryOf h] |})
   /\ In (EvWriteFile (env_RepositoryConfig env)
            {| APIVersion := EmptyString; Repositories := [entryOf h] |} 420 None)
         (events (repoAdd L env h None)))
  /\ (forall fs path e,
        In (EvReadFile path (Some e)) (events (repoAdd L env h fs)) ->
        os_IsNotExist e = false ->
        result (repoAdd L env h fs) = Some e
        /\ final (repoAdd L env h fs) = fs
        /\ (forall c err, ~ In (EvDownloadIndexFile c err) (events (repoAdd L env h fs)))
        /\ (forall p f perm err,
              ~ In (EvWriteFile p f perm err) (events (repoAdd L env h fs)))).
Proof.
  intros Hnil. split.
  - intros Hmk Hlock Hnew Hdl Hwr.
    go_unfold. simpl. destruct (env_TryLock env) as [locked err]. simpl in *. subst err.
    destruct (env_MkdirAll env) as [e0|]; [destruct (os_IsExist e0); [|done]|];
      simpl; rewrite Hnil; simpl; rewrite Hnew, Hdl; simpl;
      unfold File_Update; simpl; rewrite Hwr; simpl;
      destruct locked; simpl; auto 10.
  - intros fs path e Hin Hne. revert Hin Hne. go_cases; go_done.
Qed.

Lemma repoAdd_missing_file_witness :
  (result (repoAdd toy_Lib env_ok stable None) = None
   /\ final (repoAdd toy_Lib env_ok stable None) = Some (toy_Marshal stable_file))
  /\ (result (repoAdd toy_Lib env_unreadable stable (Some (toy_Marshal stable_file)))
        = Some (PathError "read" "/home/pb/.config/helm/repositories.yaml" EACCES)
      /\ final (repoAdd toy_Lib env_unreadable stable (Some (toy_Marshal stable_file)))
         = Some (toy_Marshal stable_file)).
Proof.
  split.
  - destruct (repoAdd_missing_file toy_Lib env_ok stable eq_refl) as [Hnew _].
    destruct (Hnew eq_refl eq_refl eq_refl eq_refl eq_refl) as (Hres & Hfin & _).
    split; [exact Hres|exact Hfin].
  - destruct (repoAdd_missing_file toy_Lib env_unreadable stable eq_refl) as [_ Hread].
    destruct (Hread (Some (toy_Marshal stable_file))
                "/home/pb/.config/helm/repositories.yaml"
                (PathError "read" "/home/pb/.config/helm/repositories.yaml" EACCES)
                ltac:(vm_compute; tauto) eq_refl) as (Hres & Hfin & _).
    split; [exact Hres|exact Hfin].
Defined.

(** repoAdd around its file part: what is returned and logged for each
    outcome of MkdirAll and TryLockContext. *)
Lemma repoAdd_unfold L env h fs :
  let path := env_RepositoryConfig env in
  let file := repoAdd_file L env h path fs in
  let mk := EvMkdirAll (filepath_Dir L path) (env_MkdirAll env) in
  repoAdd L env h fs =
  match fatal (env_MkdirAll env) os_IsExist with
  | Some e => (Some e, fs, [mk])
  | None =>
      match env_TryLock env with
      | (locked, Some e) =>
          (Some e, fs, [mk; EvTryLock (lockPath path) locked (Some e); EvCancel])
      | (locked, None) =>
          (result file, final file,
           [mk; EvTryLock (lockPath path) locked None] ++ events file
             ++ (if locked then [EvUnlock (lockPath path)] else []) ++ [EvCancel])
      end
  end.
Proof.
  intros path file mk. subst mk file.
  unfold repoAdd, os_MkdirAll, TryLockContext, Unlock, cancel, call, fatal,
    mbind, M_bind, bind, mret, M_ret, ret, result, final, events.
  fold path.
  destruct (env_MkdirAll env) as [e0|]; [destruct (os_IsExist e0)|];
    destruct (env_TryLock env) as [[] [e1|]]; simpl; try done;
    by destruct (repoAdd_file L env h path fs) as [[r fs'] t].
Qed.

(** The file part starts by reading the repositories file. *)
Lemma repoAdd_file_reads_first L env h path fs :
  exists rerr rest,
    events (repoAdd_file L env h path fs) = EvReadFile path rerr :: rest.
Proof. go_cases; eauto. Qed.

(** The file part for a name the index does not list, with the read, the
    repository and the download going through: it ends in the write. *)
Lemma repoAdd_file_reaches_write L env h path fs f :
  indexOf L fs = inr f ->
  File_Has f (RepoName h) = false ->
  fs = None \/ env_ReadFault env = None ->
  env_NewChartRepository env (entryOf h) = None ->
  env_DownloadIndexFile env (entryOf h) = None ->
  exists rerr werr,
    events (repoAdd_file L env h path fs)
    = [EvReadFile path rerr; EvNewChartRepository (entryOf h) None;
       EvDownloadIndexFile (entryOf h) None;
       EvWriteFile path (File_Update f (entryOf h)) 420 werr]
    /\ result (repoAdd_file L env h path fs) = werr
    /\ (werr = None ->
        final (repoAdd_file L env h path fs)
        = Some (yaml_Marshal L (File_Update f (entryOf h)))).
Proof.
  go_cases; go_done; do 2 eexists; (split; [reflexivity|]); by split.
Qed.

(** C5 (lock), read off the log of the call: (1) when TryLockContext
    returns an error, repoAdd returns that error after MkdirAll, the lock
    attempt and cancel only: nothing is read or written and nothing is
    unlocked; (2) when it returns no error and no lock, ReadFile on the
    repositories file is the next call all the same, no Unlock is ever
    made, and for a new name with the read, the repository and the
    download going through the log goes on to NewChartRepository,
    DownloadIndexFile and WriteFile of the updated index before cancel,
    the write deciding result and file; (3) when it returns the lock,
    ReadFile follows, and whatever happens then, Unlock on the lock path
    is made once, as the last call before cancel, after the write when
    there is one.  In (2) and (3) result, file and the calls between the
    lock attempt and the deferred ones are those of the file part. *)
Theorem repoAdd_lock L env h fs :
  let path := env_RepositoryConfig env in
  let run := repoAdd L env h fs in
  let file := repoAdd_file L env h path fs in
  let mk := EvMkdirAll (filepath_Dir L path) (env_MkdirAll env) in
  (forall p l e,
      In (EvTryLock p l (Some e)) (events run) ->
      result run = Some e /\ final run = fs
      /\ events run = [mk; EvTryLock p l (Some e); EvCancel])
  /\ (forall p,
        In (EvTryLock p false None) (events run) ->
        (exists rerr rest,
            events run
            = [mk; EvTryLock p false None; EvReadFile path rerr] ++ rest ++ [EvCancel])
        /\ (forall q, ~ In (EvUnlock q) (events run))
        /\ (forall f,
              indexOf L fs = inr f ->
              File_Has f (RepoName h) = false ->
              fs = None \/ env_ReadFault env = None ->
              env_NewChartRepository env (entryOf h) = None ->
              env_DownloadIndexFile env (entryOf h) = None ->
              exists rerr werr,
                events run
                = [mk; EvTryLock p false None; EvReadFile path rerr;
                   EvNewChartRepository (entryOf h) None;
                   EvDownloadIndexFile (entryOf h) None;
                   EvWriteFile path (File_Update f (entryOf h)) 420 werr;
                   EvCancel]
                /\ result run = werr
                /\ (werr = None ->
                    final run = Some (yaml_Marshal L (File_Update f (entryOf h)))))
        /\ result run = result file /\ final run = final file
        /\ events run = [mk; EvTryLock p false None] ++ events file ++ [EvCancel])
  /\ (forall p,
        In (EvTryLock p true None) (events run) ->
        (exists rerr rest,
            events run
            = [mk; EvTryLock p true None; EvReadFile path rerr] ++ rest
                ++ [EvUnlock p; EvCancel]
            /\ forall q, ~ In (EvUnlock q) rest)
        /\ (forall f,
              indexOf L fs = inr f ->
              File_Has f (RepoName h) = false ->
              fs = None \/ env_ReadFault env = None ->
              env_NewChartRepository env (entryOf h) = None ->
              env_DownloadIndexFile env (entryOf h) = None ->
              exists rerr werr,
                events run
                = [mk; EvTryLock p true None; EvReadFile path rerr;
                   EvNewChartRepository (entryOf h) None;
                   EvDownloadIndexFile (entryOf h) None;
                   EvWriteFile path (File_Update f (entryOf h)) 420 werr;
                   EvUnlock p; EvCancel]
                /\ result run = werr)
        /\ result run = result file /\ final run = final file
        /\ events run = [mk; EvTryLock p true None] ++ events file
                          ++ [EvUnlock p; EvCancel]
        /\ forall q, ~ In (EvUnlock q) (events file)).
Proof.
  intros path run file mk. subst run file mk.
  pose proof (repoAdd_file_no_Unlock L env h path fs) as Hno.
  assert (forall p l e,
             ~ In (EvTryLock p l e) (events (repoAdd_file L env h path fs))) as Hnl.
  { subst path. go_cases; go_done. }
  destruct (repoAdd_file_reads_first L env h path fs) as (rerr & rest & Hhead).
  pose proof (repoAdd_file_reaches_write L env h path fs) as Hwrite.
  rewrite repoAdd_unfold. fold path.
  destruct (repoAdd_file L env h path fs) as [[r fs'] t].
  unfold result, final, events in *. simpl in Hno, Hnl, Hhead, Hwrite. subst t.
  destruct (fatal (env_MkdirAll env) os_IsExist);
    destruct (env_TryLock env) as [[] [e1|]]; cbn [fst snd app].
  all: split; [|split]; intros.
  all: repeat match goal with
              | H : In _ (_ :: _) |- _ => destruct H as [H|H]; simplify_eq
              | H : In _ (_ ++ _) |- _ => apply in_app_iff in H; destruct H as [H|H]
              | H : In _ [] |- _ => destruct H
              end.
  all: try (exfalso; eapply Hnl; right; eassumption).
  all: try (exfalso; eapply Hno; right; eassumption).
  all: try done.
  - (* lock held *)
    split; [|split; [|done]].
    + exists rerr, rest. split; [done|].
      intros q Hq. apply (Hno q). by right.
    + intros f Hf Hhas Hrd Hnew Hdl.
      destruct (Hwrite f Hf Hhas Hrd Hnew Hdl) as (rerr' & werr & Hlog & Hres & Hfin).
      injection Hlog as <- ->. by exists rerr, werr.
  - (* no lock, no error *)
    split; [by exists rerr, rest|]. split.
    { intros q [Hq|[Hq|[Hq|Hq]]]; try done. apply in_app_iff in Hq.
      destruct Hq as [Hq|[Hq|[]]]; [|done]. apply (Hno q). by right. }
    split; [|done].
    intros f Hf Hhas Hrd Hnew Hdl.
    destruct (Hwrite f Hf Hhas Hrd Hnew Hdl) as (rerr' & werr & Hlog & Hres & Hfin).
    injection Hlog as <- ->. by exists rerr, werr.
Qed.

Lemma repoAdd_lock_witness :
  result (repoAdd toy_Lib env_lock_error stable None) = Some lock_failed
  /\ (exists rerr werr,
        events (repoAdd toy_Lib env_unlocked stable None)
        = [EvMkdirAll "/home/pb/.config/helm" None;
           EvTryLock "/home/pb/.config/helm/repositories.lock" false None;
           EvReadFile "/home/pb/.config/helm/repositories.yaml" rerr;
           EvNewChartRepository (entryOf stable) None;
           EvDownloadIndexFile (entryOf stable) None;
           EvWriteFile "/home/pb/.config/helm/repositories.yaml" stable_file 420 werr;
           EvCancel]
        /\ result (repoAdd toy_Lib env_unlocked stable None) = werr)
  /\ (exists rerr rest,
        events (repoAdd toy_Lib env_ok stable None)
        = [EvMkdirAll "/home/pb/.config/helm" None;
           EvTryLock "/home/pb/.config/helm/repositories.lock" true None;
           EvReadFile "/home/pb/.config/helm/repositories.yaml" rerr] ++ rest
          ++ [EvUnlock "/home/pb/.config/helm/repositories.lock"; EvCancel]).
Proof.
  split; [|split].
  - destruct (repoAdd_lock toy_Lib env_lock_error stable None) as (H1 & _ & _).
    exact (proj1 (H1 "/home/pb/.config/helm/repositories.lock" false lock_failed
                     ltac:(vm_compute; tauto))).
  - destruct (repoAdd_lock toy_Lib env_unlocked stable None) as (_ & H2 & _).
    destruct (H2 "/home/pb/.config/helm/repositories.lock" ltac:(vm_compute; tauto))
      as (_ & _ & Hwrite & _).
    destruct (Hwrite File_zero eq_refl eq_refl (or_introl eq_refl) eq_refl eq_refl)
      as (rerr & werr & Hlog & Hres & _).
    exists rerr, werr. split; [exact Hlog|exact Hres].
  - destruct (repoAdd_lock toy_Lib env_ok stable None) as (_ & _ & H3).
    destruct (H3 "/home/pb/.config/helm/repositories.lock" ltac:(vm_compute; tauto))
      as ((rerr & rest & Hlog & _) & _).
    exists rerr, rest. exact Hlog.
Defined.

(** What a call can leave in the file: what was there, the index with the
    new entry, or what a failed write left. *)
Lemma repoAdd_final_cases L env h fs :
  final (repoAdd L env h fs) = fs
  \/ (exists f, indexOf L fs = inr f /\ result (repoAdd L env h fs) = None
        /\ final (repoAdd L env h fs)
           = Some (yaml_Marshal L (File_Update f (entryOf h))))
  \/ (exists data e remains,
        env_WriteFile env fs data = WriteFailed e remains
        /\ result (repoAdd L env h fs) = Some e
        /\ final (repoAdd L env h fs) = remains).
Proof.
  go_cases; go_done;
    first [ by left
          | right; left; eexists; by repeat split
          | right; right; do 3 eexists; by repeat split ].
Qed.

(** A call that returns nil found the name listed, or added it. *)
Lemma repoAdd_nil_cases L env h fs :
  result (repoAdd L env h fs) = None ->
  exists f, indexOf L fs = inr f
    /\ (File_Has f (RepoName h) = true /\ final (repoAdd L env h fs) = fs
        \/ File_Has f (RepoName h) = false
           /\ final (repoAdd L env h fs)
              = Some (yaml_Marshal L (File_Update f (entryOf h)))).
Proof.
  go_cases; go_done; eexists; (split; [done|]);
    first [ by left | by right ].
Qed.

(** A call changes or writes the file only for an index that parses and
    does not list the name. *)
Lemma repoAdd_no_write_unless_unlisted L env h fs :
  (forall f, indexOf L fs = inr f -> File_Has f (RepoName h) = true) ->
  final (repoAdd L env h fs) = fs
  /\ forall path f' perm err,
       ~ In (EvWriteFile path f' perm err) (events (repoAdd L env h fs)).
Proof.
  intros Hall.
  destruct (indexOf L fs) as [m|f] eqn:Hf.
  - clear Hall. revert Hf. go_cases; go_done.
  - specialize (Hall f eq_refl). revert Hf Hall. go_cases; go_done.
Qed.

(** C3 (idempotence): let a file that lists the name, once marshalled,
    not read back as one that does not, and let a failed write leave the
    file as it was.  Then a second call in the same environment leaves the
    file as the first call left it; and after a first call that returned
    nil, a second call in any environment attempts no write at all, so no
    entry is added twice and no URL is replaced. *)
Theorem repoAdd_idempotent L env h fs :
  (forall f f', File_Has f (RepoName h) = true ->
     yaml_Unmarshal L (yaml_Marshal L f) = inr f' ->
     File_Has f' (RepoName h) = true) ->
  (forall old data e remains,
     env_WriteFile env old data = WriteFailed e remains -> remains = old) ->
  let once := repoAdd L env h fs in
  final (repoAdd L env h (final once)) = final once
  /\ (result once = None ->
      forall env',
        final (repoAdd L env' h (final once)) = final once
        /\ forall path f' perm err,
             ~ In (EvWriteFile path f' perm err)
                  (events (repoAdd L env' h (final once)))).
Proof.
  intros Hrt Hwr once. subst once.
  assert (forall f,
            final (repoAdd L env h fs)
              = Some (yaml_Marshal L (File_Update f (entryOf h))) ->
            forall f', indexOf L (final (repoAdd L env h fs)) = inr f' ->
                       File_Has f' (RepoName h) = true) as Hnew.
  { intros f -> f'. apply (Hrt (File_Update f (entryOf h))).
    apply (File_Has_Update f (entryOf h)). }
  split.
  - destruct (repoAdd_final_cases L env h fs)
      as [Hsame|[(f & Hf & _ & Hfin)|(data & e & remains & Hw & _ & Hfin)]].
    + by rewrite !Hsame.
    + by apply repoAdd_no_write_unless_unlisted, (Hnew f).
    + apply Hwr in Hw.
      assert (final (repoAdd L env h fs) = fs) as Hsame by congruence.
      by rewrite !Hsame.
  - intros Hnil env'. apply repoAdd_no_write_unless_unlisted.
    destruct (repoAdd_nil_cases L env h fs Hnil) as (f & Hf & [[Hhas Hfin]|[_ Hfin]]).
    + rewrite Hfin. congruence.
    + by apply (Hnew f).
Qed.

Lemma repoAdd_idempotent_witness :
  final (repoAdd toy_Lib env_ok stable (final (repoAdd toy_Lib env_ok stable None)))
    = final (repoAdd toy_Lib env_ok stable None)
  /\ final (repoAdd toy_Lib env_ok stable None) = Some (toy_Marshal stable_file).
Proof.
  split; [|reflexivity].
  refine (proj1 (repoAdd_idempotent toy_Lib env_ok stable None _ _)).
  - intros f f' Hf Hrt. change (toy_Unmarshal (toy_Marshal f) = inr f') in Hrt.
    rewrite toy_roundtrip in Hrt. by inversion Hrt; subst f'.
  - intros old data e remains Hw. discriminate Hw.
Defined.

(** ** Install and upgrade around the synchronizer *)

Ltac helm_unfold :=
  unfold Apply, Upgrade, Uninstall, DeleteRelease, actionConfig_Init, LocateChart,
    loader_Load, MergeValues, Install_Run, Upgrade_Run, Uninstall_Run, call,
    result, final, events, mbind, M_bind, bind, mret, M_ret, ret in *.

(** Apply runs the whole synchronizer after Init and before LocateChart. *)
Lemma Apply_repoAdd_then_LocateChart L env h verbose fs :
  env_Init env (Namespace h) = None ->
  exists err rest,
    events (Apply L env h verbose fs)
    = EvInit (Namespace h) None
        :: events (repoAdd L env h fs)
        ++ EvLocateChart (RepoName h +:+ "/" +:+ ChartName h) err :: rest.
Proof.
  intros Hinit. helm_unfold. rewrite Hinit. simpl.
  destruct (repoAdd L env h fs) as [[r fs'] t]. simpl.
  repeat go_case; eauto.
Qed.

Lemma Upgrade_repoAdd_then_LocateChart L env h fs :
  env_Init env (Namespace h) = None ->
  exists err rest,
    events (Upgrade L env h fs)
    = EvInit (Namespace h) None
        :: events (repoAdd L env h fs)
        ++ EvLocateChart (RepoName h +:+ "/" +:+ ChartName h) err :: rest.
Proof.
  intros Hinit. helm_unfold. rewrite Hinit. simpl.
  destruct (repoAdd L env h fs) as [[r fs'] t]. simpl.
  repeat go_case; eauto.
Qed.

(** What Apply returns is decided without the result of repoAdd. *)
Lemma Apply_result L env h verbose fs :
  result (Apply L env h verbose fs) =
  match env_Init env (Namespace h) with
  | Some e => Some (WrapError "failed to initialize Helm configuration: " e)
  | None =>
      match env_LocateChart env (RepoName h +:+ "/" +:+ ChartName h) with
      | inl e => Some e
      | inr cp =>
          match env_Load env cp with
          | Some e => Some e
          | None =>
              match env_MergeValues env (Values h) with
              | Some e => Some e
              | None =>
                  env_InstallRun env
                    {| i_ReleaseName := ReleaseName h; i_Namespace := Namespace h;
                       i_Version := Version h; i_CreateNamespace := true;
                       i_Wait := true; i_Timeout := 300 * time_Second;
                       i_WaitForJobs := true |}
              end
          end
      end
  end.
Proof.
  helm_unfold. destruct (env_Init env (Namespace h)); simpl; [done|].
  destruct (repoAdd L env h fs) as [[r fs'] t]. simpl.
  repeat go_case; done.
Qed.

(** C6, at an input where the download fails and the chart is found all
    the same: repoAdd returns its wrapped transport error, and Apply and
    Upgrade, which call it first, both return nil. *)
Theorem Apply_Upgrade_drop_repoAdd_error :
  result (repoAdd toy_Lib env_unreachable stable None)
    = Some (WithMessage no_route (msg_not_valid toy_Lib "https://charts.example.com"))
  /\ result (Apply toy_Lib env_unreachable stable false None) = None
  /\ result (Upgrade toy_Lib env_unreachable stable None) = None.
Proof. by vm_compute. Qed.

(** C9, as amended: Uninstall runs the uninstall action with Wait set and a
    timeout of five minutes, which is 300 seconds; DeleteRelease runs it as
    NewUninstall returned it, without Wait and with a zero timeout. *)
Theorem uninstall_timeouts env fs c n e :
  (forall h verbose,
      In (EvUninstallRun c n e) (events (Uninstall env h verbose fs)) ->
      n = ReleaseName h /\ un_Wait c = true
      /\ un_Timeout c = 5 * time_Minute /\ un_Timeout c = 300 * time_Second)
  /\ (forall chartName namespace,
        In (EvUninstallRun c n e) (events (DeleteRelease env chartName namespace fs)) ->
        n = chartName /\ c = NewUninstall /\ un_Wait c = false /\ un_Timeout c = 0).
Proof.
  split; intros; revert H; helm_unfold; simpl; repeat go_case; go_done.
Qed.

Lemma uninstall_timeouts_witness :
  un_Timeout {| un_Wait := true; un_Timeout := 5 * time_Minute |} = 300 * time_Second
  /\ un_Timeout NewUninstall = 0.
Proof.
  split.
  - refine (proj2 (proj2 (proj2
      (proj1 (uninstall_timeouts env_ok None
                {| un_Wait := true; un_Timeout := 5 * time_Minute |} "parseable" None)
             stable false _)))).
    vm_compute. tauto.
  - refine (proj2 (proj2 (proj2
      (proj2 (uninstall_timeouts env_ok None NewUninstall "parseable" None)
             "parseable" "parseable" _)))).
    vm_compute. tauto.
Defined.

(** C9 as stated fails: the action DeleteRelease runs has no 300 second
    timeout. *)
Lemma DeleteRelease_timeout_counterexample :
  ~ (forall c n e,
        In (EvUninstallRun c n e)
           (events (DeleteRelease env_ok "parseable" "parseable" None)) ->
        un_Timeout c = 300 * time_Second).
Proof.
  intros H.
  specialize (H NewUninstall "parseable" None ltac:(vm_compute; tauto)).
  discriminate H.
Qed.

(** ** The REST client *)

Lemma Header_after_auth_and_type (v : string) :
  let h := Header_Add (Header_Set ∅ "Authorization" v) "Content-Type" "application/json" in
  h !! "Authorization" = Some [v] /\ h !! "Content-Type" = Some ["application/json"].
Proof.
  unfold Header_Add, Header_Set. simpl. split.
  - rewrite lookup_insert_ne by done. by rewrite lookup_insert_eq.
  - rewrite lookup_insert_eq. rewrite lookup_insert_ne by done.
    by rewrite lookup_empty.
Qed.

(** NewRequest is http.NewRequest on the joined URL, then the two headers. *)
Lemma NewRequest_inv N client method path body req :
  NewRequest N client method path body = inr req ->
  exists u,
    url_Parse N (baseAPIURL N client path) = inr u
    /\ http_validMethod N (if String.eqb method "" then "GET" else method) = true
    /\ req = {| Method := if String.eqb method "" then "GET" else method;
                Request_URL := u;
                Header := Header_Add
                            (Header_Set ∅ "Authorization"
                               ("Basic " +:+ basicAuth
                                  (Profile_Username (HTTPClient_Profile client))
                                  (Profile_Password (HTTPClient_Profile client))))
                            "Content-Type" "application/json";
                Body := body |}.
Proof.
  unfold NewRequest, http_NewRequest, SetBasicAuth, Request_Header_Add.
  destruct (http_validMethod N _) eqn:Hm; simpl; [|done].
  destruct (url_Parse N (baseAPIURL N client path)) as [e|u] eqn:Hu; simpl; [done|].
  intros [= <-]. by exists u.
Qed.

(** C8: a request that NewRequest builds has the URL that url.Parse reads
    from baseAPIURL, which is url.JoinPath of the profile URL, "api/v1/"
    and the path (the joined URL's text when the profile URL parses); its
    Authorization header is "Basic " and the base64 of username:password,
    its Content-Type header is application/json, its body is the one given;
    and DefaultClient keeps the profile and sets a timeout of 60 seconds. *)
Theorem NewRequest_built N client method path body req :
  NewRequest N client method path body = inr req ->
  url_Parse N (baseAPIURL N client path) = inr (Request_URL req)
  /\ baseAPIURL N client path
     = fst (url_JoinPath N (Profile_URL (HTTPClient_Profile client)) ["api/v1/"; path])
  /\ (forall base, url_Parse N (Profile_URL (HTTPClient_Profile client)) = inr base ->
        baseAPIURL N client path
        = URL_String N (URL_JoinPath N base ["api/v1/"; path]))
  /\ Header req !! "Authorization"
     = Some ["Basic " +:+ base64_EncodeToString
                 (Profile_Username (HTTPClient_Profile client) +:+ ":"
                    +:+ Profile_Password (HTTPClient_Profile client))]
  /\ Header req !! "Content-Type" = Some ["application/json"]
  /\ Body req = body
  /\ (forall profile,
        HTTPClient_Profile (DefaultClient profile) = profile
        /\ Timeout (Client (DefaultClient profile)) = 60 * time_Second
        /\ 60 * time_Second = 60000000000).
Proof.
  intros Hreq. destruct (NewRequest_inv _ _ _ _ _ _ Hreq) as (u & Hu & _ & ->).
  simpl. split; [done|]. split; [done|]. split.
  - intros base Hbase. unfold baseAPIURL, url_JoinPath. by rewrite Hbase.
  - split; [|split; [|done]]; apply Header_after_auth_and_type.
Qed.

Lemma NewRequest_built_witness :
  exists req,
    NewRequest toy_Net (DefaultClient demo) "GET" "logstream" None = inr req
    /\ Request_URL req = "https://demo.parseable.com/api/v1/logstream"
    /\ Header req !! "Authorization" = Some ["Basic QWxhZGRpbjpvcGVuIHNlc2FtZQ=="]
    /\ Header req !! "Content-Type" = Some ["application/json"].
Proof.
  eexists. split; [reflexivity|].
  destruct (NewRequest_built toy_Net (DefaultClient demo) "GET" "logstream" None _ eq_refl)
    as (_ & _ & _ & Hauth & Htype & _).
  split; [reflexivity|]. split; [exact Hauth|exact Htype].
Defined.

(** C10: when the profile URL does not parse, url.JoinPath returns the
    empty string with the error, baseAPIURL keeps the empty string only,
    and NewRequest is http.NewRequest on the empty URL followed by the two
    headers: it fails only if that call fails, and builds a request for
    the empty URL whenever the method is valid and the empty URL parses. *)
Theorem NewRequest_join_failure N client method path body e :
  url_Parse N (Profile_URL (HTTPClient_Profile client)) = inl e ->
  url_JoinPath N (Profile_URL (HTTPClient_Profile client)) ["api/v1/"; path]
    = (EmptyString, Some e)
  /\ baseAPIURL N client path = EmptyString
  /\ NewRequest N client method path body
     = match http_NewRequest N method EmptyString body with
       | inl err => inl err
       | inr req =>
           inr (Request_Header_Add
                  (SetBasicAuth req (Profile_Username (HTTPClient_Profile client))
                                (Profile_Password (HTTPClient_Profile client)))
                  "Content-Type" "application/json")
       end
  /\ (forall u,
        url_Parse N EmptyString = inr u ->
        http_validMethod N (if String.eqb method "" then "GET" else method) = true ->
        exists req, NewRequest N client method path body = inr req
                    /\ Request_URL req = u).
Proof.
  intros He.
  assert (baseAPIURL N client path = EmptyString) as Hb.
  { unfold baseAPIURL, url_JoinPath. by rewrite He. }
  split; [unfold url_JoinPath; by rewrite He|]. split; [done|]. split.
  - unfold NewRequest. by rewrite Hb.
  - intros u Hu Hm. unfold NewRequest, http_NewRequest. rewrite Hb, Hm, Hu. simpl.
    eexists. split; [reflexivity|done].
Qed.

Lemma NewRequest_join_failure_witness :
  baseAPIURL toy_Net (DefaultClient broken) "logstream" = EmptyString
  /\ exists req,
       NewRequest toy_Net (DefaultClient broken) "GET" "logstream" None = inr req
       /\ Request_URL req = EmptyString.
Proof.
  destruct (NewRequest_join_failure toy_Net (DefaultClient broken) "GET" "logstream" None
              (LibError "net/url: invalid character in host name") eq_refl)
    as (_ & Hb & _ & Hok).
  split; [exact Hb|]. exact (Hok EmptyString eq_refl eq_refl).
Defined.

(** * Further properties of the synchronizer *)

(** X1: an error of MkdirAll other than "already exists" is returned at once:
    the lock is not tried, nothing is read; "already exists" is passed over
    and the lock attempt follows. *)
Theorem repoAdd_MkdirAll_error L env h fs e :
  env_MkdirAll env = Some e ->
  let mk := EvMkdirAll (filepath_Dir L (env_RepositoryConfig env)) (Some e) in
  if os_IsExist e
  then exists rest,
      events (repoAdd L env h fs)
      = mk :: EvTryLock (lockPath (env_RepositoryConfig env))
                (fst (env_TryLock env)) (snd (env_TryLock env)) :: rest
  else repoAdd L env h fs = (Some e, fs, [mk]).
Proof.
  intros He mk. subst mk. rewrite repoAdd_unfold. unfold fatal. rewrite He.
  destruct (os_IsExist e); [|done].
  destruct (env_TryLock env) as [locked [e1|]]; unfold events; simpl; eauto.
Qed.

Lemma repoAdd_MkdirAll_error_witness :
  repoAdd toy_Lib (with_MkdirAll (Some mkdir_denied) env_ok) stable None
    = (Some mkdir_denied, None, [EvMkdirAll "/home/pb/.config/helm" (Some mkdir_denied)])
  /\ result (repoAdd toy_Lib (with_MkdirAll (Some mkdir_exists) env_ok) stable None) = None.
Proof.
  split.
  - exact (repoAdd_MkdirAll_error toy_Lib (with_MkdirAll (Some mkdir_denied) env_ok)
             stable None mkdir_denied eq_refl).
  - destruct (repoAdd_MkdirAll_error toy_Lib (with_MkdirAll (Some mkdir_exists) env_ok)
                stable None mkdir_exists eq_refl) as [rest _].
    reflexivity.
Defined.

(** X2: a file that is read and does not parse: the yaml error is returned,
    no repository is built, nothing is fetched or written. *)
Theorem repoAdd_parse_error L env h fs m p err :
  indexOf L fs = inl m ->
  In (EvReadFile p err) (events (repoAdd L env h fs)) ->
  fatal err os_IsNotExist = None ->
  result (repoAdd L env h fs) = Some (YAMLError m)
  /\ final (repoAdd L env h fs) = fs
  /\ count isNewChartRepository (events (repoAdd L env h fs)) = 0%nat
  /\ count isDownloadIndexFile (events (repoAdd L env h fs)) = 0%nat
  /\ count isWriteFile (events (repoAdd L env h fs)) = 0%nat.
Proof.
  unfold count. go_cases; go_done.
Qed.

Lemma repoAdd_parse_error_witness :
  result (repoAdd toy_Lib env_ok stable (Some garbage))
    = Some (YAMLError "did not find expected node content")
  /\ final (repoAdd toy_Lib env_ok stable (Some garbage)) = Some garbage.
Proof.
  destruct (repoAdd_parse_error toy_Lib env_ok stable (Some garbage)
              "did not find expected node content" "/home/pb/.config/helm/repositories.yaml" None
              eq_refl ltac:(vm_compute; tauto) eq_refl) as (Hres & Hfin & _).
  split; [exact Hres|exact Hfin].
Defined.

(** X3: a failure of NewChartRepository is returned as it is, before any
    download or write. *)
Theorem repoAdd_NewChartRepository_error L env h fs c e :
  In (EvNewChartRepository c (Some e)) (events (repoAdd L env h fs)) ->
  c = entryOf h
  /\ result (repoAdd L env h fs) = Some e
  /\ final (repoAdd L env h fs) = fs
  /\ count isDownloadIndexFile (events (repoAdd L env h fs)) = 0%nat
  /\ count isWriteFile (events (repoAdd L env h fs)) = 0%nat.
Proof.
  unfold count. go_cases; go_done.
Qed.

Lemma repoAdd_NewChartRepository_error_witness :
  result (repoAdd toy_Lib (with_NewChartRepository (Some bad_scheme) env_ok) stable None)
    = Some bad_scheme
  /\ final (repoAdd toy_Lib (with_NewChartRepository (Some bad_scheme) env_ok) stable None)
     = None.
Proof.
  destruct (repoAdd_NewChartRepository_error toy_Lib
              (with_NewChartRepository (Some bad_scheme) env_ok) stable None
              (entryOf stable) bad_scheme ltac:(vm_compute; tauto))
    as (_ & Hres & Hfin & _).
  split; [exact Hres|exact Hfin].
Defined.

(** X4: a failed write is what repoAdd returns, and the file is what the
    write left. *)
Theorem repoAdd_WriteFile_error L env h fs p f perm e :
  In (EvWriteFile p f perm (Some e)) (events (repoAdd L env h fs)) ->
  result (repoAdd L env h fs) = Some e
  /\ exists remains,
       env_WriteFile env fs (yaml_Marshal L f) = WriteFailed e remains
       /\ final (repoAdd L env h fs) = remains.
Proof.
  go_cases; go_done; eauto.
Qed.

Lemma repoAdd_WriteFile_error_witness :
  result (repoAdd toy_Lib env_disk_full stable None) = Some disk_full.
Proof.
  exact (proj1 (repoAdd_WriteFile_error toy_Lib env_disk_full stable None
                  "/home/pb/.config/helm/repositories.yaml" stable_file 420 disk_full ltac:(vm_compute; tauto))).
Defined.

Lemma Entries_Get_update_ne l e n :
  n <> Name e -> Entries_Get (Entries_update l e) n = Entries_Get l n.
Proof.
  intros Hne. induction l as [|r l IH]; simpl.
  - destruct (String.eqb (Name e) n) eqn:E; [|done].
    apply String.eqb_eq in E. congruence.
  - destruct (String.eqb (Name r) (Name e)) eqn:E; simpl.
    + apply String.eqb_eq in E.
      destruct (String.eqb (Name e) n) eqn:E1; [apply String.eqb_eq in E1; congruence|].
      destruct (String.eqb (Name r) n) eqn:E2; [apply String.eqb_eq in E2; congruence|].
      done.
    + by rewrite IH.
Qed.

Lemma Entries_Get_None l n : Entries_Get l n = None <-> ~ In n (map Name l).
Proof.
  induction l as [|r l IH]; simpl; [tauto|].
  destruct (String.eqb (Name r) n) eqn:E.
  - apply String.eqb_eq in E. split; [done|]. intros H. destruct H. by left.
  - apply String.eqb_neq in E. rewrite IH. tauto.
Qed.

Lemma File_Has_false f n : File_Has f n = false -> Entries_Get (Repositories f) n = None.
Proof. unfold File_Has, File_Get. by destruct (Entries_Get _ _). Qed.

(** X5: every error repoAdd can return, by where it comes from. *)
Theorem repoAdd_errors L env h fs err :
  result (repoAdd L env h fs) = Some err ->
  (env_MkdirAll env = Some err /\ os_IsExist err = false)
  \/ snd (env_TryLock env) = Some err
  \/ (exists rf, env_ReadFault env = Some rf
        /\ err = PathError "read" (env_RepositoryConfig env) (ReadFault_errno rf))
  \/ (exists m, indexOf L fs = inl m /\ err = YAMLError m)
  \/ env_NewChartRepository env (entryOf h) = Some err
  \/ (exists e f, env_DownloadIndexFile env (entryOf h) = Some e
        /\ indexOf L fs = inr f
        /\ err = WithMessage e (if File_Has f (RepoName h)
                                then msg_update_failed L (RepoURL h)
                                else msg_not_valid L (RepoURL h)))
  \/ (exists f remains,
        env_WriteFile env fs (yaml_Marshal L f) = WriteFailed err remains).
Proof.
  go_cases; go_done;
    first [ by left
          | by right; left
          | right; right; left; eexists; split; [reflexivity|congruence]
          | right; right; right; left; eexists; by split
          | by do 4 right; left
          | do 5 right; left; do 2 eexists;
            (split; [done|]); (split; [done|]);
            by repeat match goal with H : File_Has _ _ = _ |- _ => rewrite H end
          | do 6 right; do 2 eexists; eassumption ].
Qed.

Lemma repoAdd_errors_witness :
  env_DownloadIndexFile env_unreachable (entryOf stable) = Some no_route
  /\ result (repoAdd toy_Lib env_unreachable stable None)
     = Some (WithMessage no_route (msg_not_valid toy_Lib "https://charts.example.com")).
Proof.
  split; [reflexivity|].
  destruct (repoAdd_errors toy_Lib env_unreachable stable None
              (WithMessage no_route (msg_not_valid toy_Lib "https://charts.example.com"))
              eq_refl) as [H|H]; reflexivity.
Defined.

(** X6: what repoAdd writes, when it writes: the repositories file, mode 0644,
    the index it read with the new entry put last, and only after the
    remote index was fetched for a name the index did not list. *)
Theorem repoAdd_write L env h fs p f' perm werr :
  In (EvWriteFile p f' perm werr) (events (repoAdd L env h fs)) ->
  p = env_RepositoryConfig env
  /\ perm = 6 * 64 + 4 * 8 + 4
  /\ In (EvDownloadIndexFile (entryOf h) None) (events (repoAdd L env h fs))
  /\ exists f,
       indexOf L fs = inr f
       /\ File_Has f (RepoName h) = false
       /\ APIVersion f' = APIVersion f
       /\ Repositories f' = Repositories f ++ [entryOf h].
Proof.
  intros Hin.
  assert (p = env_RepositoryConfig env /\ perm = 420
          /\ In (EvDownloadIndexFile (entryOf h) None) (events (repoAdd L env h fs))
          /\ exists f, indexOf L fs = inr f /\ File_Has f (RepoName h) = false
                       /\ f' = File_Update f (entryOf h)) as (-> & -> & Hdl & f & Hf & Hhas & ->).
  { revert Hin. go_cases; go_done; eauto 10. }
  split; [done|]. split; [done|]. split; [done|].
  exists f. split; [done|]. split; [done|]. split; [done|].
  apply (Entries_update_absent (Repositories f) (entryOf h)).
  by apply File_Has_false.
Qed.

Lemma repoAdd_write_witness :
  exists f',
    In (EvWriteFile "/home/pb/.config/helm/repositories.yaml" f' 420 None)
       (events (repoAdd toy_Lib env_ok incubator (Some (toy_Marshal stable_file))))
    /\ Repositories f' = Repositories stable_file ++ [entryOf incubator].
Proof.
  exists (File_Update stable_file (entryOf incubator)).
  assert (In (EvWriteFile "/home/pb/.config/helm/repositories.yaml"
                (File_Update stable_file (entryOf incubator)) 420 None)
             (events (repoAdd toy_Lib env_ok incubator (Some (toy_Marshal stable_file)))))
    as Hin by (vm_compute; tauto).
  split; [exact Hin|].
  destruct (repoAdd_write toy_Lib env_ok incubator (Some (toy_Marshal stable_file))
              _ _ _ _ Hin) as (_ & _ & _ & f & Hf & _ & _ & Hrepos).
  vm_compute in Hf. inversion Hf; subst f. exact Hrepos.
Defined.

(** X7: one call reads the file, builds a repository, fetches the remote index
    and writes the file at most once each, and tries the lock at most
    once. *)
Theorem repoAdd_at_most_once L env h fs :
  let log := events (repoAdd L env h fs) in
  (count isTryLock log <= 1)%nat
  /\ (count isReadFile log <= 1)%nat
  /\ (count isNewChartRepository log <= 1)%nat
  /\ (count isDownloadIndexFile log <= 1)%nat
  /\ (count isWriteFile log <= 1)%nat
  /\ (count isWriteFile log <= count isDownloadIndexFile log)%nat.
Proof.
  unfold count. go_cases; go_done; lia.
Qed.

(** X8: a write keeps the names of the index distinct. *)
Theorem repoAdd_write_names_distinct L env h fs p f' perm werr f :
  In (EvWriteFile p f' perm werr) (events (repoAdd L env h fs)) ->
  indexOf L fs = inr f ->
  NoDup (map Name (Repositories f)) ->
  NoDup (map Name (Repositories f')).
Proof.
  intros Hin Hf Hnd.
  assert (f' = File_Update f (entryOf h) /\ File_Has f (RepoName h) = false) as [-> Hhas].
  { revert Hin Hf. go_cases; go_done. }
  simpl. rewrite (Entries_update_absent (Repositories f) (entryOf h))
    by by apply File_Has_false.
  rewrite map_app. simpl. apply NoDup_app. split; [done|]. split.
  - intros n Hn Hn'. apply list_elem_of_In in Hn, Hn'. simpl in Hn'.
    destruct Hn' as [<-|[]]. apply File_Has_false, Entries_Get_None in Hhas. done.
  - apply NoDup_singleton.
Qed.

Lemma repoAdd_write_names_distinct_witness :
  NoDup (map Name (Repositories (File_Update stable_file (entryOf incubator)))).
Proof.
  apply (repoAdd_write_names_distinct toy_Lib env_ok incubator
           (Some (toy_Marshal stable_file)) "/home/pb/.config/helm/repositories.yaml"
           (File_Update stable_file (entryOf incubator)) 420 None stable_file).
  - vm_compute. tauto.
  - reflexivity.
  - apply NoDup_cons. split; [by intros H; inversion H|apply NoDup_nil_2].
Defined.

(** X9: a name the index does not list, with every call going through: repoAdd
    returns nil and the file holds the index with the new entry; when that
    file reads back as written, the name now looks up to the URL given. *)
Theorem repoAdd_adds_entry L env h fs f :
  indexOf L fs = inr f ->
  File_Has f (RepoName h) = false ->
  fatal (env_MkdirAll env) os_IsExist = None ->
  snd (env_TryLock env) = None ->
  env_ReadFault env = None ->
  env_NewChartRepository env (entryOf h) = None ->
  env_DownloadIndexFile env (entryOf h) = None ->
  env_WriteFile env fs (yaml_Marshal L (File_Update f (entryOf h))) = WriteOk ->
  result (repoAdd L env h fs) = None
  /\ final (repoAdd L env h fs) = Some (yaml_Marshal L (File_Update f (entryOf h)))
  /\ (yaml_Unmarshal L (yaml_Marshal L (File_Update f (entryOf h)))
        = inr (File_Update f (entryOf h)) ->
      storedURL L (final (repoAdd L env h fs)) (RepoName h) = Some (RepoURL h)).
Proof.
  intros Hf Hhas Hmk Hlk Hrf Hnew Hdl Hwr.
  assert (result (repoAdd L env h fs) = None
          /\ final (repoAdd L env h fs)
             = Some (yaml_Marshal L (File_Update f (entryOf h)))) as [Hres Hfin].
  { revert Hf Hhas Hmk Hlk Hrf Hnew Hdl Hwr. go_cases; go_done. }
  split; [done|]. split; [done|].
  intros Hrt. rewrite Hfin. unfold storedURL, indexOf. rewrite Hrt.
  unfold File_Get, File_Update. simpl.
  pose proof (Entries_Get_update (Repositories f) (entryOf h)) as Hget.
  simpl in Hget. by rewrite Hget.
Qed.

Lemma repoAdd_adds_entry_witness :
  result (repoAdd toy_Lib env_ok incubator (Some (toy_Marshal stable_file))) = None
  /\ storedURL toy_Lib
       (final (repoAdd toy_Lib env_ok incubator (Some (toy_Marshal stable_file))))
       "incubator" = Some "https://incubator.example.com".
Proof.
  destruct (repoAdd_adds_entry toy_Lib env_ok incubator (Some (toy_Marshal stable_file))
              stable_file eq_refl eq_refl eq_refl eq_refl eq_refl eq_refl eq_refl eq_refl)
    as (Hres & _ & Hurl).
  split; [exact Hres|]. exact (Hurl (toy_roundtrip _)).
Defined.

(** X10: after a call that returned nil, every other name looks up to what it
    did before, provided the index repoAdd writes reads back with the
    same URL under every name. *)
Theorem repoAdd_other_names L env h fs n :
  (forall f, indexOf L fs = inr f ->
     exists g,
       yaml_Unmarshal L (yaml_Marshal L (File_Update f (entryOf h))) = inr g
       /\ forall m, URL <$> File_Get g m
                    = URL <$> File_Get (File_Update f (entryOf h)) m) ->
  result (repoAdd L env h fs) = None ->
  n <> RepoName h ->
  storedURL L (final (repoAdd L env h fs)) n = storedURL L fs n.
Proof.
  intros Hrt Hnil Hne.
  destruct (repoAdd_nil_cases L env h fs Hnil) as (f & Hf & [[_ Hfin]|[_ Hfin]]).
  - by rewrite Hfin.
  - destruct (Hrt f Hf) as (g & Hg & Hsame).
    rewrite Hfin. unfold storedURL. rewrite Hf. unfold indexOf. rewrite Hg, Hsame.
    unfold File_Get, File_Update. simpl.
    by rewrite (Entries_Get_update_ne (Repositories f) (entryOf h) n).
Qed.

Lemma repoAdd_other_names_witness :
  storedURL toy_Lib
    (final (repoAdd toy_Lib env_ok incubator (Some (toy_Marshal stable_file))))
    "stable" = Some "https://charts.example.com".
Proof.
  rewrite (repoAdd_other_names toy_Lib env_ok incubator (Some (toy_Marshal stable_file))
             "stable"
             (fun f _ => ex_intro _ (File_Update f (entryOf incubator))
                           (conj (toy_roundtrip _) (fun m => eq_refl)))
             eq_refl ltac:(discriminate)).
  reflexivity.
Defined.

(** * Further properties of the chart operations *)

(** X11: when the action configuration cannot be initialised, each operation
    stops there: Init is the only call made, the repositories file is not
    touched; Apply and Uninstall put their prefix before the error,
    Upgrade and DeleteRelease return it as it is. *)
Theorem Init_error_stops L env h verbose fs e :
  env_Init env (Namespace h) = Some e ->
  let init := [EvInit (Namespace h) (Some e)] in
  let wrapped := WrapError "failed to initialize Helm configuration: " e in
  Apply L env h verbose fs = (Some wrapped, fs, init)
  /\ Uninstall env h verbose fs = (Some wrapped, fs, init)
  /\ Upgrade L env h fs = (Some e, fs, init)
  /\ (forall chartName,
        DeleteRelease env chartName (Namespace h) fs = (Some e, fs, init))
  /\ Error wrapped = "failed to initialize Helm configuration: " +:+ Error e.
Proof.
  intros He. helm_unfold. rewrite He. simpl. done.
Qed.

Lemma Init_error_stops_witness :
  Apply toy_Lib (with_Init (Some no_cluster) env_ok) stable false None
  = (Some (WrapError "failed to initialize Helm configuration: " no_cluster), None,
     [EvInit "parseable" (Some no_cluster)]).
Proof.
  exact (proj1 (Init_error_stops toy_Lib (with_Init (Some no_cluster) env_ok)
                  stable false None no_cluster eq_refl)).
Defined.

(** X12: Apply and Upgrade leave the repositories file as repoAdd leaves it;
    Uninstall and DeleteRelease never touch it. *)
Theorem operations_file L env h verbose fs :
  (env_Init env (Namespace h) = None ->
   final (Apply L env h verbose fs) = final (repoAdd L env h fs)
   /\ final (Upgrade L env h fs) = final (repoAdd L env h fs))
  /\ final (Uninstall env h verbose fs) = fs
  /\ (forall chartName namespace, final (DeleteRelease env chartName namespace fs) = fs).
Proof.
  split; [|split].
  - intros Hinit. helm_unfold. rewrite Hinit. simpl.
    destruct (repoAdd L env h fs) as [[r fs'] t]. simpl.
    split; repeat go_case; done.
  - helm_unfold. repeat go_case; done.
  - intros. helm_unfold. repeat go_case; done.
Qed.

Lemma operations_file_witness :
  final (Apply toy_Lib env_ok stable false None) = Some (toy_Marshal stable_file)
  /\ final (Upgrade toy_Lib env_ok stable None) = Some (toy_Marshal stable_file).
Proof.
  destruct (proj1 (operations_file toy_Lib env_ok stable false None) eq_refl) as [Ha Hu].
  split.
  - transitivity (final (repoAdd toy_Lib env_ok stable None)); [exact Ha|reflexivity].
  - transitivity (final (repoAdd toy_Lib env_ok stable None)); [exact Hu|reflexivity].
Defined.

(** X13: the install action Apply runs: named and placed as the Helm struct
    says, at its version, creating the namespace, waiting (jobs too) up to
    300 seconds; it runs only once the chart was located and loaded and
    the values merged, and its outcome is what Apply returns. *)
Theorem Apply_Run_options L env h verbose fs client err :
  In (EvInstallRun client err) (events (Apply L env h verbose fs)) ->
  client = {| i_ReleaseName := ReleaseName h; i_Namespace := Namespace h;
              i_Version := Version h; i_CreateNamespace := true;
              i_Wait := true; i_Timeout := 300 * time_Second;
              i_WaitForJobs := true |}
  /\ result (Apply L env h verbose fs) = err
  /\ env_Init env (Namespace h) = None
  /\ (exists cp, env_LocateChart env (RepoName h +:+ "/" +:+ ChartName h) = inr cp
                 /\ env_Load env cp = None)
  /\ env_MergeValues env (Values h) = None.
Proof.
  assert (forall c e, ~ In (EvInstallRun c e) (events (repoAdd L env h fs))) as Hno.
  { go_cases; go_done. }
  revert Hno. helm_unfold.
  destruct (env_Init env (Namespace h)); simpl; [go_done|].
  destruct (repoAdd L env h fs) as [[r fs'] t]. simpl.
  repeat go_case; intros Hno [H|H]; try done;
    apply in_app_iff in H; destruct H as [H|H]; try (by destruct (Hno _ _ H));
    go_done; eauto.
Qed.

Lemma Apply_Run_options_witness :
  i_Timeout {| i_ReleaseName := "parseable"; i_Namespace := "parseable";
               i_Version := "1.0.0"; i_CreateNamespace := true; i_Wait := true;
               i_Timeout := 300 * time_Second; i_WaitForJobs := true |} = 300000000000
  /\ result (Apply toy_Lib env_ok stable false None) = None.
Proof.
  split; [reflexivity|].
  exact (proj1 (proj2 (Apply_Run_options toy_Lib env_ok stable false None
           {| i_ReleaseName := "parseable"; i_Namespace := "parseable";
              i_Version := "1.0.0"; i_CreateNamespace := true; i_Wait := true;
              i_Timeout := 300 * time_Second; i_WaitForJobs := true |} None
           ltac:(vm_compute; tauto)))).
Defined.

(** X14: the upgrade action Upgrade runs: for the release name, in the
    namespace of the Helm struct (the release name written into the
    namespace field first is overwritten), waiting up to 300 seconds; its
    outcome is what Upgrade returns. *)
Theorem Upgrade_Run_options L env h fs client name err :
  In (EvUpgradeRun client name err) (events (Upgrade L env h fs)) ->
  name = ReleaseName h
  /\ client = {| u_Namespace := Namespace h; u_Version := Version h;
                 u_Wait := true; u_Timeout := 300 * time_Second;
                 u_WaitForJobs := true |}
  /\ result (Upgrade L env h fs) = err
  /\ env_Init env (Namespace h) = None
  /\ (exists cp, env_LocateChart env (RepoName h +:+ "/" +:+ ChartName h) = inr cp
                 /\ env_Load env cp = None)
  /\ env_MergeValues env (Values h) = None.
Proof.
  assert (forall c n e, ~ In (EvUpgradeRun c n e) (events (repoAdd L env h fs))) as Hno.
  { go_cases; go_done. }
  revert Hno. helm_unfold.
  destruct (env_Init env (Namespace h)); simpl; [go_done|].
  destruct (repoAdd L env h fs) as [[r fs'] t]. simpl.
  repeat go_case; intros Hno [H|H]; try done;
    apply in_app_iff in H; destruct H as [H|H]; try (by destruct (Hno _ _ _ H));
    go_done; eauto.
Qed.

Lemma Upgrade_Run_options_witness :
  result (Upgrade toy_Lib env_ok stable None) = None.
Proof.
  exact (proj1 (proj2 (proj2 (Upgrade_Run_options toy_Lib env_ok stable None
           {| u_Namespace := "parseable"; u_Version := "1.0.0"; u_Wait := true;
              u_Timeout := 300 * time_Second; u_WaitForJobs := true |} "parseable" None
           ltac:(vm_compute; tauto))))).
Defined.

(** The synchronizer makes none of the chart calls. *)
Lemma repoAdd_events_kind L env h fs ev :
  In ev (events (repoAdd L env h fs)) ->
  match ev with
  | EvInit _ _ | EvLocateChart _ _ | EvLoad _ _ | EvMergeValues _ _
  | EvInstallRun _ _ | EvUpgradeRun _ _ _ | EvUninstallRun _ _ _ => False
  | _ => True
  end.
Proof. go_cases; go_done. Qed.

Ltac log_cases Hk :=
  repeat match goal with
         | H : _ \/ _ |- _ => destruct H
         | H : ex _ |- _ => destruct H
         | H : In _ (_ :: _) |- _ => destruct H; simplify_eq
         | H : In _ (_ ++ _) |- _ => apply in_app_iff in H
         | H : In _ [] |- _ => destruct H
         | H : In ?ev _ |- _ => by destruct (Hk ev H)
         | |- ~ _ => intros ?
         end; try done.

(** X15: a step of Apply or Upgrade that fails after the synchronizer (locating
    or loading the chart, merging the values) ends the operation with
    that very error, and the install or upgrade action is not run. *)
Theorem chart_step_error L env h verbose fs e :
  let failed log :=
    (exists name, In (EvLocateChart name (Some e)) log)
    \/ (exists path, In (EvLoad path (Some e)) log)
    \/ (exists vals, In (EvMergeValues vals (Some e)) log) in
  (failed (events (Apply L env h verbose fs)) ->
   result (Apply L env h verbose fs) = Some e
   /\ forall client err, ~ In (EvInstallRun client err) (events (Apply L env h verbose fs)))
  /\ (failed (events (Upgrade L env h fs)) ->
      result (Upgrade L env h fs) = Some e
      /\ forall client name err,
           ~ In (EvUpgradeRun client name err) (events (Upgrade L env h fs))).
Proof.
  intros failed. subst failed. simpl.
  pose proof (repoAdd_events_kind L env h fs) as Hk.
  split.
  - helm_unfold. destruct (env_Init env (Namespace h)); simpl;
      [|destruct (repoAdd L env h fs) as [[r fs'] t]; simpl in *; repeat go_case];
      intros Hf; (split; [|intros client err]); log_cases Hk.
  - helm_unfold. destruct (env_Init env (Namespace h)); simpl;
      [|destruct (repoAdd L env h fs) as [[r fs'] t]; simpl in *; repeat go_case];
      intros Hf; (split; [|intros client name err]); log_cases Hk.
Qed.

Lemma chart_step_error_witness :
  result (Apply toy_Lib (with_LocateChart (inl chart_not_found) env_ok) stable false None)
    = Some chart_not_found
  /\ result (Upgrade toy_Lib (with_LocateChart (inl chart_not_found) env_ok) stable None)
     = Some chart_not_found.
Proof.
  destruct (chart_step_error toy_Lib (with_LocateChart (inl chart_not_found) env_ok)
              stable false None chart_not_found) as [Ha Hu].
  split.
  - refine (proj1 (Ha _)). left. exists "stable/parseable". vm_compute. tauto.
  - refine (proj1 (Hu _)). left. exists "stable/parseable". vm_compute. tauto.
Defined.

(** * The lock path *)

Lemma prefix_app_drop old s :
  String.prefix old s = true -> old +:+ dropString (String.length old) s = s.
Proof.
  revert s. induction old as [|c old IH]; intros s H; [reflexivity|].
  destruct s as [|d s]; [discriminate H|]. simpl in H.
  destruct (ascii_dec c d) as [->|]; [|discriminate H].
  change (String d (old +:+ dropString (String.length old) s) = String d s).
  by rewrite IH.
Qed.

Lemma strings_Replace1_same s old : strings_Replace1 s old old = s.
Proof.
  induction s as [|c s IH]; cbn [strings_Replace1].
  - destruct (String.prefix old EmptyString) eqn:E; [|reflexivity].
    by apply prefix_app_drop.
  - destruct (String.prefix old (String c s)) eqn:E.
    + by apply prefix_app_drop.
    + by rewrite IH.
Qed.

(** X16: a repositories file without an extension: the lock path is ".lock"
    put in front of the whole path, since strings.Replace with an empty
    old string inserts at the start. *)
Theorem lockPath_without_extension repoFile :
  filepath_Ext repoFile = EmptyString ->
  lockPath repoFile = ".lock" +:+ repoFile.
Proof.
  intros Hext. unfold lockPath. rewrite Hext. by destruct repoFile.
Qed.

Lemma lockPath_without_extension_witness :
  lockPath "/etc/helm.d/repositories" = ".lock/etc/helm.d/repositories".
Proof. exact (lockPath_without_extension "/etc/helm.d/repositories" eq_refl). Defined.

(** X17: a repositories file whose extension is ".lock" is its own lock file. *)
Theorem lockPath_lock_extension repoFile :
  filepath_Ext repoFile = ".lock" ->
  lockPath repoFile = repoFile.
Proof.
  intros Hext. unfold lockPath. rewrite Hext. apply strings_Replace1_same.
Qed.

Lemma lockPath_lock_extension_witness :
  lockPath "/srv/helm/repositories.lock" = "/srv/helm/repositories.lock".
Proof. exact (lockPath_lock_extension "/srv/helm/repositories.lock" eq_refl). Defined.

Lemma prefix_refl s : String.prefix s s = true.
Proof.
  induction s as [|c s IH]; [done|]. simpl.
  by destruct (ascii_dec c c).
Qed.

Lemma dropString_length s : dropString (String.length s) s = EmptyString.
Proof. induction s as [|c s IH]; [done|]. exact IH. Qed.

Lemma strings_Replace1_last stem ext new :
  (forall i, (i < String.length stem)%nat ->
             String.prefix ext (dropString i (stem +:+ ext)) = false) ->
  strings_Replace1 (stem +:+ ext) ext new = stem +:+ new.
Proof.
  induction stem as [|c stem IH]; intros Hno.
  - change (strings_Replace1 ext ext new = new).
    destruct ext as [|d ext]; cbn [strings_Replace1]; rewrite prefix_refl;
      by rewrite dropString_length, String_app_empty_r.
  - change (strings_Replace1 (String c (stem +:+ ext)) ext new
            = String c (stem +:+ new)).
    cbn [strings_Replace1].
    rewrite (Hno 0%nat ltac:(simpl; lia) : String.prefix ext (String c (stem +:+ ext)) = false).
    rewrite IH; [done|]. intros i Hi. apply (Hno (S i)). simpl. lia.
Qed.

(** X18: the lock file sits beside the repositories file, with ".lock" in place
    of the extension, when the text of the extension does not occur
    earlier in the path: what is replaced is its first occurrence. *)
Theorem lockPath_beside stem ext :
  filepath_Ext (stem +:+ ext) = ext ->
  (forall i, (i < String.length stem)%nat ->
             String.prefix ext (dropString i (stem +:+ ext)) = false) ->
  lockPath (stem +:+ ext) = stem +:+ ".lock".
Proof.
  intros Hext Hno. unfold lockPath. rewrite Hext. by apply strings_Replace1_last.
Qed.

Lemma lockPath_beside_witness :
  lockPath "/srv/helm/repositories.yaml" = "/srv/helm/repositories.lock".
Proof.
  apply (lockPath_beside "/srv/helm/repositories" ".yaml" eq_refl).
  intros i Hi.
  do 22 (destruct i as [|i]; [reflexivity|]).
  simpl in Hi. lia.
Defined.

(** * Listing releases *)

Lemma releases_named_In {C} (releases : list (Release C)) name :
  releases_named releases name = true
  <-> exists r, In r releases /\ Release_Name r = name.
Proof.
  induction releases as [|r rs IH]; simpl.
  - split; [done|]. by intros (r & [] & _).
  - destruct (String.eqb (Release_Name r) name) eqn:E.
    + apply String.eqb_eq in E. split; [|done]. intros _. exists r. by split; [left|].
    + apply String.eqb_neq in E. rewrite IH. split.
      * intros (r' & Hin & Hn). exists r'. by split; [right|].
      * intros (r' & [->|Hin] & Hn); [done|]. by exists r'.
Qed.

(** X19: ListRelease answers true exactly when ListReleases succeeds with a
    release of that name; it fails exactly when ListReleases fails, with
    the same error and the answer false; and it prints its one line
    exactly when ListReleases succeeds with no release at all. *)
Theorem ListRelease_ListReleases {C} env (S : ReleaseStore C) releaseName namespace :
  let found := fst (fst (ListRelease env S releaseName namespace)) in
  let err := snd (fst (ListRelease env S releaseName namespace)) in
  let printed := snd (ListRelease env S releaseName namespace) in
  (found = true <->
     exists releases r, ListReleases env S namespace = inr releases
                        /\ In r releases /\ Release_Name r = releaseName)
  /\ (forall e, err = Some e <-> ListReleases env S namespace = inl e)
  /\ (err <> None -> found = false)
  /\ (printed = ["No release exist, install app " +:+ releaseName]
      <-> ListReleases env S namespace = inr [])
  /\ (printed = [] \/ printed = ["No release exist, install app " +:+ releaseName]).
Proof.
  unfold ListRelease, ListReleases.
  destruct (env_Init env namespace) as [e0|]; simpl.
  { split; [split; [done|by intros (? & ? & ? & _)]|].
    split; [intros e; split; congruence|]. split; [done|]. split; [done|by left]. }
  destruct (store_List S) as [e0|releases]; simpl.
  { split; [split; [done|by intros (? & ? & ? & _)]|].
    split; [intros e; split; congruence|]. split; [done|]. split; [done|by left]. }
  destruct releases as [|r0 rs]; simpl.
  { split; [split; [done|by intros (? & ? & [= <-] & [] & _)]|].
    split; [done|]. split; [done|]. split; [done|by right]. }
  split.
  { rewrite (releases_named_In (r0 :: rs) releaseName). split.
    - intros (r & Hin & Hn). by exists (r0 :: rs), r.
    - intros (rs' & r & [= <-] & Hin & Hn). by exists r. }
  split; [done|]. split; [done|]. split; [done|by left].
Qed.

Lemma ListRelease_ListReleases_witness :
  fst (fst (ListRelease env_ok two_releases "parseable" "parseable")) = true
  /\ snd (ListRelease env_ok no_releases "parseable" "parseable")
     = ["No release exist, install app parseable"].
Proof.
  split.
  - apply (proj1 (ListRelease_ListReleases env_ok two_releases "parseable" "parseable")).
    eexists. eexists. split; [reflexivity|]. split; [right; left; reflexivity|reflexivity].
  - apply (proj1 (proj2 (proj2 (proj2
             (ListRelease_ListReleases env_ok no_releases "parseable" "parseable"))))).
    reflexivity.
Defined.

(** * Further properties of the REST client *)

(** X20: NewRequest fails in two ways only: the method (GET when none is given)
    is not a valid one, or the text baseAPIURL returns does not parse; the
    credentials and the body play no part. *)
Theorem NewRequest_errors N client method path body err :
  let m := if String.eqb method "" then "GET" else method in
  NewRequest N client method path body = inl err <->
  (http_validMethod N m = false
   /\ err = LibError ("net/http: invalid method " +:+ Net_Quote N m))
  \/ (http_validMethod N m = true
      /\ url_Parse N (baseAPIURL N client path) = inl err).
Proof.
  unfold NewRequest, http_NewRequest.
  destruct (http_validMethod N _) eqn:Hm; simpl.
  - destruct (url_Parse N (baseAPIURL N client path)) as [e|u]; simpl.
    + split; [intros [= <-]; by right|]. intros [[? _]|[_ [= <-]]]; done.
    + split; [done|]. intros [[? _]|[_ ?]]; done.
  - split; [intros [= <-]; by left|]. intros [[_ ->]|[? _]]; done.
Qed.

Lemma NewRequest_errors_witness :
  NewRequest toy_Net (DefaultClient demo) "GET" "log stream" None
  = inl (LibError "net/url: invalid character in host name").
Proof.
  apply (NewRequest_errors toy_Net (DefaultClient demo) "GET" "log stream" None).
  right. split; reflexivity.
Defined.

(** X21: NewRequest succeeds whenever the method is valid and the joined URL
    parses, and the request then has the method given (GET when none),
    the two headers and no other. *)
Theorem NewRequest_ok N client method path body u :
  let m := if String.eqb method "" then "GET" else method in
  http_validMethod N m = true ->
  url_Parse N (baseAPIURL N client path) = inr u ->
  exists req,
    NewRequest N client method path body = inr req
    /\ Method req = m
    /\ Request_URL req = u
    /\ Body req = body
    /\ forall key,
         key <> "Authorization" -> key <> "Content-Type" -> Header req !! key = None.
Proof.
  intros m Hm Hu. unfold NewRequest, http_NewRequest. fold m. rewrite Hm, Hu. simpl.
  eexists. split; [reflexivity|]. simpl. split; [done|]. split; [done|]. split; [done|].
  intros key Ha Hc. unfold Header_Add, Header_Set.
  rewrite lookup_insert_ne by done. rewrite lookup_insert_ne by done.
  apply lookup_empty.
Qed.

Lemma NewRequest_ok_witness :
  exists req,
    NewRequest toy_Net (DefaultClient demo) EmptyString "logstream" None = inr req
    /\ Method req = "GET"
    /\ Header req !! "Accept" = None.
Proof.
  destruct (NewRequest_ok toy_Net (DefaultClient demo) EmptyString "logstream" None
              "https://demo.parseable.com/api/v1/logstream" eq_refl eq_refl)
    as (req & Hreq & Hm & _ & _ & Hh).
  exists req. split; [exact Hreq|]. split; [exact Hm|].
  apply Hh; discriminate.
Defined.
